(** * video-processing-server: the cut-request pipeline of [src/index.js]

    A shallow embedding of the Express handlers of [src/index.js]
    ([GET /health], [POST /cut-video]), of [timestampToSeconds] and of
    [cutVideoSegment], together with the part of the JavaScript runtime
    they rely on.

    - JavaScript numbers are IEEE 754 binary64 values: Rocq's primitive
      [float], with its own [+], [*], [-] and [<=].
    - JavaScript strings are Rocq [string]s; characters outside ASCII are
      their UTF-8 bytes.
    - The handler runs in a state-and-exception monad over a [World]: the
      files on disk, the engine invocations made so far, the [unlinkSync]
      calls made so far and the console.
    - Everything the process does not decide itself (the transcoder's
      verdict, identifiers drawn by [uuidv4], the clock, a failing
      [unlink]) is read from an [Env]. *)

From Stdlib Require Import Floats ZArith Ascii Bool Lia.
From stdpp Require Import base gmap strings list.

Set Warnings "-register-all,-clear-no-such-hyp".

(** ** JavaScript numbers *)

Module JSNum.

Local Open Scope Z_scope.

Abbreviation number := PrimFloat.float.

Definition zero : number := PrimFloat.zero.
Definition NaN : number := PrimFloat.nan.

(** [ToBoolean] on a number: [+0], [-0] and [NaN] are falsy. *)
Definition truthy (x : number) : bool :=
  negb (PrimFloat.is_zero x || PrimFloat.is_nan x).

(** [a || b] on numbers. *)
Definition or_else (a b : number) : number := if truthy a then a else b.

(** The number nearest to [(-1)^neg * m * 10^e10], ties to even: the
    rounding [StringToNumber] and [parseFloat] apply to a decimal
    literal. *)
Definition of_decimal (neg : bool) (m : Z) (e10 : Z) : number :=
  match m with
  | Zpos p =>
      let num := if 0 <? e10 then (p * Pos.pow 10 (Z.to_pos e10))%positive else p in
      let den := if e10 <? 0 then Pos.pow 10 (Z.to_pos (- e10)) else 1%positive in
      SF2Prim (SF64div (S754_finite neg num 0) (S754_finite false den 0))
  | _ => if neg then PrimFloat.neg_zero else PrimFloat.zero
  end.

(** An array index or length as a number. *)
Definition of_nat (n : nat) : number := of_decimal false (Z.of_nat n) 0.

End JSNum.

Import JSNum.

(** ** JavaScript strings: [split], [Number] and [parseFloat] *)

Module JSStr.

Local Open Scope Z_scope.

Definition code (c : ascii) : Z := Z.of_N (N_of_ascii c).

Definition is_char (c : ascii) (n : Z) : bool := code c =? n.

(** [s.split(':')]: the pieces of [s] between colons; never empty. *)
Fixpoint split_colon (s : string) : list string :=
  match s with
  | EmptyString => [""]
  | String c s' =>
      if is_char c 58 then "" :: split_colon s'
      else match split_colon s' with
           | p :: ps => String c p :: ps
           | [] => [String c ""]
           end
  end.

(** *** White space

    [WhiteSpace] and [LineTerminator] of ECMAScript, as UTF-8 byte
    sequences of one, two and three bytes. *)
Definition ws1 (a : ascii) : bool :=
  let n := code a in ((9 <=? n) && (n <=? 13)) || (n =? 32).

Definition ws2 (a b : ascii) : bool :=
  (code a =? 194) && (code b =? 160).

Definition ws3 (a b c : ascii) : bool :=
  let x := code a in let y := code b in let z := code c in
  ((x =? 225) && (y =? 154) && (z =? 128))
  || ((x =? 226) && (y =? 128)
      && (((128 <=? z) && (z <=? 138)) || (z =? 168) || (z =? 169) || (z =? 175)))
  || ((x =? 226) && (y =? 129) && (z =? 159))
  || ((x =? 227) && (y =? 128) && (z =? 128))
  || ((x =? 239) && (y =? 187) && (z =? 191)).

(** Drops leading white space; with [back], [s] is a reversed string and
    the bytes of a character come last byte first. *)
Fixpoint drop_ws (back : bool) (s : string) : string :=
  match s with
  | EmptyString => s
  | String a r1 =>
      if ws1 a then drop_ws back r1
      else match r1 with
           | EmptyString => s
           | String b r2 =>
               if (if back then ws2 b a else ws2 a b) then drop_ws back r2
               else match r2 with
                    | EmptyString => s
                    | String c r3 =>
                        if (if back then ws3 c b a else ws3 a b c)
                        then drop_ws back r3 else s
                    end
           end
  end.

Definition trimStart (s : string) : string := drop_ws false s.

Definition trim (s : string) : string :=
  String.rev (drop_ws true (String.rev (trimStart s))).

(** *** Numeric literals *)

Definition digit_of (base : Z) (c : ascii) : option Z :=
  let n := code c in
  let d := if (48 <=? n) && (n <=? 57) then n - 48
           else if (97 <=? n) && (n <=? 102) then n - 87
           else if (65 <=? n) && (n <=? 70) then n - 55
           else base in
  if d <? base then Some d else None.

(** Reads the digits at the front of [s] in [base], continuing the value
    [acc]; returns the value, how many digits were read, and the rest. *)
Fixpoint scan_digits (base acc : Z) (n : nat) (s : string) : Z * nat * string :=
  match s with
  | EmptyString => (acc, n, s)
  | String c r =>
      match digit_of base c with
      | Some d => scan_digits base (acc * base + d) (S n) r
      | None => (acc, n, s)
      end
  end.

(** [ExponentPart], when a complete one is at the front of [s]. *)
Definition scan_exponent (s : string) : Z * string :=
  match s with
  | String c s1 =>
      if is_char c 101 || is_char c 69 then
        let '(sgn, s2) :=
          match s1 with
          | String d t => if is_char d 43 then (1, t)
                          else if is_char d 45 then (-1, t) else (1, s1)
          | EmptyString => (1, s1)
          end in
        let '(v, n, s3) := scan_digits 10 0 0 s2 in
        match n with O => (0, s) | S _ => (sgn * v, s3) end
      else (0, s)
  | EmptyString => (0, s)
  end.

Inductive literal :=
| LInfinity
| LDecimal (m e10 : Z).

Fixpoint strip_prefix (p s : string) : option string :=
  match p, s with
  | EmptyString, _ => Some s
  | String a p', String b s' => if Ascii.eqb a b then strip_prefix p' s' else None
  | String _ _, EmptyString => None
  end.

(** The longest [StrUnsignedDecimalLiteral] at the front of [s]. *)
Definition scan_unsigned (s : string) : option (literal * string) :=
  match strip_prefix "Infinity" s with
  | Some r => Some (LInfinity, r)
  | None =>
      let '(ip, ni, s1) := scan_digits 10 0 0 s in
      let with_point :=
        match s1 with
        | String c s2 => if is_char c 46 then Some s2 else None
        | EmptyString => None
        end in
      match with_point with
      | Some s2 =>
          let '(m, nf, s3) := scan_digits 10 ip 0 s2 in
          match ni, nf with
          | O, O => None
          | _, _ => let '(e, s4) := scan_exponent s3 in
                    Some (LDecimal m (e - Z.of_nat nf), s4)
          end
      | None =>
          match ni with
          | O => None
          | S _ => let '(e, s4) := scan_exponent s1 in Some (LDecimal ip e, s4)
          end
      end
  end.

(** The longest [StrDecimalLiteral] at the front of [s], as a number. *)
Definition scan_decimal (s : string) : option (number * string) :=
  let '(neg, s1) :=
    match s with
    | String c t => if is_char c 43 then (false, t)
                    else if is_char c 45 then (true, t) else (false, s)
    | EmptyString => (false, s)
    end in
  match scan_unsigned s1 with
  | Some (LInfinity, r) =>
      Some (if neg then PrimFloat.neg_infinity else PrimFloat.infinity, r)
  | Some (LDecimal m e, r) => Some (of_decimal neg m e, r)
  | None => None
  end.

(** [NonDecimalIntegerLiteral]: [0x], [0o] or [0b] and digits to the end. *)
Definition non_decimal (s : string) : option Z :=
  match s with
  | String z (String r t) =>
      if is_char z 48 then
        let base := if is_char r 120 || is_char r 88 then 16
                    else if is_char r 111 || is_char r 79 then 8
                    else if is_char r 98 || is_char r 66 then 2 else 0 in
        match scan_digits base 0 0 t with
        | (v, S _, EmptyString) => Some v
        | _ => None
        end
      else None
  | _ => None
  end.

(** [Number(s)], that is [StringToNumber]. *)
Definition Number (s : string) : number :=
  match trim s with
  | EmptyString => zero
  | t =>
      match non_decimal t with
      | Some v => of_decimal false v 0
      | None =>
          match scan_decimal t with
          | Some (v, EmptyString) => v
          | _ => NaN
          end
      end
  end.

(** How many colons [s] holds: one less than the parts [split_colon]
    makes of it. *)
Fixpoint colons (s : string) : nat :=
  match s with
  | EmptyString => 0
  | String c r => (if is_char c 58 then 1 else 0) + colons r
  end.

(** [parseFloat(s)]. *)
Definition parseFloat (s : string) : number :=
  match scan_decimal (trimStart s) with
  | Some (v, _) => v
  | None => NaN
  end.

End JSStr.

Import JSStr.

(** ** JavaScript values and exceptions *)

Inductive jsval :=
| VUndefined
| VNull
| VBool (b : bool)
| VNum (x : number)
| VStr (s : string)
| VArr (elems : list jsval)
| VObj (props : list (string * jsval)).

Record JsError := { err_name : string; message : string }.

Definition TypeError (msg : string) : JsError :=
  {| err_name := "TypeError"; message := msg |}.

Definition Error (msg : string) : JsError :=
  {| err_name := "Error"; message := msg |}.

(** How an evaluation ends: with a value, or with a thrown exception. *)
Inductive completion (A : Type) :=
| Normal (a : A)
| Throw (e : JsError).

Arguments Normal {A} a.
Arguments Throw {A} e.

Definition is_undefined (v : jsval) : bool :=
  match v with VUndefined => true | _ => false end.

Fixpoint assoc (k : string) (props : list (string * jsval)) : jsval :=
  match props with
  | [] => VUndefined
  | (k', v) :: rest => if String.eqb k k' then v else assoc k rest
  end.

(** [v.k] for the property names the handler reads ([start] and [end]),
    which no prototype defines: reading them off [undefined] or [null]
    throws, off any other value that is not an object with that key gives
    [undefined]. *)
Definition get_prop (v : jsval) (k : string) : completion jsval :=
  match v with
  | VUndefined =>
      Throw (TypeError ("Cannot read properties of undefined (reading '" +:+ k +:+ "')"))
  | VNull =>
      Throw (TypeError ("Cannot read properties of null (reading '" +:+ k +:+ "')"))
  | VObj props => Normal (assoc k props)
  | _ => Normal VUndefined
  end.

(** ** [timestampToSeconds] *)

Definition timestampToSeconds (timestamp : jsval) : completion number :=
  match timestamp with
  | VNum x => Normal x
  | VStr s =>
      let parts := map Number (split_colon s) in
      match parts with
      | [h; m; sec] => Normal (h * 3600 + m * 60 + sec)%float
      | [m; sec] => Normal (m * 60 + sec)%float
      | _ => Normal (or_else (parseFloat s) zero)
      end
  | VUndefined =>
      Throw (TypeError "Cannot read properties of undefined (reading 'split')")
  | VNull =>
      Throw (TypeError "Cannot read properties of null (reading 'split')")
  | _ => Throw (TypeError "timestamp.split is not a function")
  end.

(** *** Well-formed timestamps

    A component is numeric when [Number] accepts the whole of it; a
    timestamp string is well formed when it is one, two or three numeric
    components between colons. *)
Definition numeric (s : string) : bool := negb (PrimFloat.is_nan (Number s)).

Definition well_formed (s : string) : bool :=
  match split_colon s with
  | [a] => numeric a
  | [a; b] => numeric a && numeric b
  | [a; b; c] => numeric a && numeric b && numeric c
  | _ => false
  end.

(** ** The world the handlers act on *)

(** One invocation of the transcoder, as [cutVideoSegment] configures it. *)
Record EngineCall := {
  call_input : string;
  call_output : string;
  call_start : number;
  call_duration : number;
  call_videoCodec : string;
  call_audioCodec : string;
  call_outputOptions : list string
}.

(** What the transcoder reports back for one invocation: the command line
    of its [start] event, the [percent] of each [progress] event, and the
    message of its [error] event ([None] when it fires [end]). *)
Record EngineRun := {
  run_cmd : option string;
  run_progress : list (option number);
  run_error : option string
}.

Inductive LogEntry :=
| LogFfmpegStart (cmd : string)
| LogFfmpegProgress (percent : string)
| LogFfmpegCompleted (outputPath : string)
| LogFfmpegError (msg : string)
| LogProcessing (ncuts : nat) (originalname : string)
| LogCutCompleted (i total : nat)
| LogCutFailed (i : nat) (msg : string)
| LogCleanupFailed (msg : string)
| LogCompleted (duration : string) (nresults nerrors : nat)
| LogServerError (e : JsError).

Record World := {
  disk : gset string;
  engine_log : list EngineCall;
  unlink_log : list string;
  console : list LogEntry;
  uuid_drawn : nat;
  clock_reads : nat
}.

(** What the process is given: constants of the module, runtime functions
    left abstract, and the answers of the outside world, indexed by how
    many were asked for before. *)
Record Env := {
  ffmpegPath : string;
  CUTS_DIR : string;
  uuidv4 : nat -> string;
  Date_now : nat -> number;
  ffmpeg_run : nat -> EngineCall -> EngineRun;
  unlink_fault : nat -> string -> option string;
  JSON_parse : string -> option jsval;
  Number_toString : number -> string;
  toFixed : nat -> number -> string
}.

(** ** State and exceptions *)

Definition M (A : Type) : Type := World -> completion A * World.

Definition ret {A} (a : A) : M A := fun w => (Normal a, w).

Definition throw {A} (e : JsError) : M A := fun w => (Throw e, w).

Definition bind {A B} (m : M A) (k : A -> M B) : M B :=
  fun w => match m w with
           | (Normal a, w') => k a w'
           | (Throw e, w') => (Throw e, w')
           end.

(** [try { m } catch (e) { h e }]. *)
Definition try_catch {A} (m : M A) (h : JsError -> M A) : M A :=
  fun w => match m w with
           | (Normal a, w') => (Normal a, w')
           | (Throw e, w') => h e w'
           end.

Definition lift {A} (c : completion A) : M A := fun w => (c, w).

Definition console_log (e : LogEntry) : M unit :=
  fun w => (Normal tt,
            {| disk := disk w; engine_log := engine_log w;
               unlink_log := unlink_log w; console := console w ++ [e];
               uuid_drawn := uuid_drawn w; clock_reads := clock_reads w |}).

Declare Scope js_scope.
Delimit Scope js_scope with js.
Notation "x <- m ;; k" := (bind m (fun x => k))
  (at level 100, m at next level, right associativity) : js_scope.
Notation "m ;;; k" := (bind m (fun _ => k))
  (at level 100, right associativity) : js_scope.
Local Open Scope js_scope.

Definition draw_uuid (env : Env) : M string :=
  fun w => (Normal (uuidv4 env (uuid_drawn w)),
            {| disk := disk w; engine_log := engine_log w;
               unlink_log := unlink_log w; console := console w;
               uuid_drawn := S (uuid_drawn w); clock_reads := clock_reads w |}).

Definition read_clock (env : Env) : M number :=
  fun w => (Normal (Date_now env (clock_reads w)),
            {| disk := disk w; engine_log := engine_log w;
               unlink_log := unlink_log w; console := console w;
               uuid_drawn := uuid_drawn w; clock_reads := S (clock_reads w) |}).

(** [fs.unlinkSync(p)]: removes [p], or throws when the file is not there
    or the system refuses. *)
Definition unlinkSync (env : Env) (p : string) : M unit :=
  fun w =>
    let attempted d :=
      {| disk := d; engine_log := engine_log w;
         unlink_log := unlink_log w ++ [p]; console := console w;
         uuid_drawn := uuid_drawn w; clock_reads := clock_reads w |} in
    match unlink_fault env (length (unlink_log w)) p with
    | Some msg => (Throw (Error msg), attempted (disk w))
    | None =>
        if decide (p ∈ disk w) then (Normal tt, attempted (disk w ∖ {[p]}))
        else (Throw (Error ("ENOENT: no such file or directory, unlink '" +:+ p +:+ "'")),
              attempted (disk w))
    end.

Definition path_join (dir name : string) : string := dir +:+ "/" +:+ name.

(** ** [cutVideoSegment] *)

Definition progress_entries (env : Env) (ps : list (option number)) : list LogEntry :=
  omap (fun p => match p with
                 | Some x => if truthy x then Some (LogFfmpegProgress (toFixed env 1 x))
                             else None
                 | None => None
                 end) ps.

(** Resolves with [outputPath] on the transcoder's [end] event, rejects
    with its error on the [error] event. *)
Definition cutVideoSegment (env : Env) (inputPath outputPath : string)
    (startSeconds endSeconds : number) : M string :=
  fun w =>
    let duration := (endSeconds - startSeconds)%float in
    let call :=
      {| call_input := inputPath;
         call_output := outputPath;
         call_start := startSeconds;
         call_duration := duration;
         call_videoCodec := "libx264";
         call_audioCodec := "aac";
         call_outputOptions :=
           ["-preset veryfast"; "-crf 23"; "-movflags +faststart";
            "-avoid_negative_ts make_zero"] |} in
    let run := ffmpeg_run env (length (engine_log w)) call in
    let events :=
      match run_cmd run with Some cmd => [LogFfmpegStart cmd] | None => [] end
      ++ progress_entries env (run_progress run) in
    match run_error run with
    | None =>
        (Normal outputPath,
         {| disk := disk w ∪ {[outputPath]};
            engine_log := engine_log w ++ [call];
            unlink_log := unlink_log w;
            console := console w ++ events ++ [LogFfmpegCompleted outputPath];
            uuid_drawn := uuid_drawn w; clock_reads := clock_reads w |})
    | Some msg =>
        (Throw (Error msg),
         {| disk := disk w;
            engine_log := engine_log w ++ [call];
            unlink_log := unlink_log w;
            console := console w ++ events ++ [LogFfmpegError msg];
            uuid_drawn := uuid_drawn w; clock_reads := clock_reads w |})
    end.

(** ** The HTTP handlers *)

Record UploadedFile := { file_path : string; originalname : string }.

(** A request as [POST /cut-video] sees it after the upload middleware:
    [req.file] when a [video] part was stored, and [req.body.cuts]. *)
Record Request := { req_file : option UploadedFile; body_cuts : option string }.

Record Response := { status : nat; body : jsval }.

(** [res.status(code).json(obj)]: properties holding [undefined] are not
    serialised. *)
Definition res_json (code : nat) (props : list (string * jsval)) : Response :=
  {| status := code;
     body := VObj (filter (fun p => is_undefined (snd p) = false) props) |}.

(** [GET /health]. *)
Definition health (env : Env) : Response :=
  res_json 200 [("status", VStr "ok"); ("ffmpeg", VStr (ffmpegPath env))].

(** An entry of the handler's [errors] array. *)
Record CutError := { index : nat; error : string }.

Definition error_obj (e : CutError) : jsval :=
  VObj [("index", VNum (of_nat (index e))); ("error", VStr (error e))].

(** [`${v}`] for the values that reach the range message: a cut's [start]
    and [end] once [timestampToSeconds] has accepted them. *)
Definition template (env : Env) (v : jsval) : string :=
  match v with
  | VStr s => s
  | VNum x => Number_toString env x
  | _ => ""
  end.

Definition non_empty (s : string) : bool :=
  match s with EmptyString => false | String _ _ => true end.

Definition dq : string := String "034"%char "".

(** One pass through the body of [for (let i = 0; i < cuts.length; i++)],
    for the element [cut] at index [i], with the arrays [results] and
    [errors] as they stand; returns the arrays as the pass leaves them. *)
Definition process_cut (env : Env) (inputPath : string) (total i : nat)
    (cut : jsval) (results : list string) (errors : list CutError)
    : M (list string * list CutError) :=
  start <- lift (get_prop cut "start") ;;
  startSeconds <- lift (timestampToSeconds start) ;;
  end_ <- lift (get_prop cut "end") ;;
  endSeconds <- lift (timestampToSeconds end_) ;;
  if PrimFloat.leb endSeconds startSeconds then
    ret (results,
         errors ++ [{| index := i;
                       error := "Invalid time range: " +:+ template env start
                                +:+ " to " +:+ template env end_ |}])
  else
    id <- draw_uuid env ;;
    let outputFilename := id +:+ ".mp4" in
    let outputPath := path_join (CUTS_DIR env) outputFilename in
    try_catch
      (cutVideoSegment env inputPath outputPath startSeconds endSeconds ;;;
       console_log (LogCutCompleted (i + 1) total) ;;;
       ret (results ++ ["cuts/" +:+ outputFilename], errors))
      (fun cutError =>
         console_log (LogCutFailed (i + 1) (message cutError)) ;;;
         ret (results, errors ++ [{| index := i; error := message cutError |}])).

(** The loop from index [i] on, over the elements [cuts] still to do. *)
Fixpoint cut_loop (env : Env) (inputPath : string) (total i : nat)
    (cuts : list jsval) (results : list string) (errors : list CutError)
    : M (list string * list CutError) :=
  match cuts with
  | [] => ret (results, errors)
  | cut :: rest =>
      arrays <- process_cut env inputPath total i cut results errors ;;
      cut_loop env inputPath total (S i) rest (fst arrays) (snd arrays)
  end.

(** [req.body.cuts || '[]']. *)
Definition cuts_text (req : Request) : string :=
  match body_cuts req with
  | Some s => if non_empty s then s else "[]"
  | None => "[]"
  end.

(** [POST /cut-video], after [upload.single('video')]. *)
Definition cut_video (env : Env) (req : Request) : M Response :=
  startTime <- read_clock env ;;
  try_catch
    (match req_file req with
     | None =>
         ret (res_json 400
                [("success", VBool false);
                 ("error", VStr ("No video file provided. Use field name "
                                 +:+ dq +:+ "video" +:+ dq +:+ "."))])
     | Some file =>
         match JSON_parse env (cuts_text req) with
         | None =>
             ret (res_json 400
                    [("success", VBool false);
                     ("error", VStr ("Invalid JSON in " +:+ dq +:+ "cuts" +:+ dq
                                     +:+ " field."))])
         | Some (VArr (c :: cs)) =>
             let cuts := c :: cs in
             console_log (LogProcessing (length cuts) (originalname file)) ;;;
             let inputPath := file_path file in
             arrays <- cut_loop env inputPath (length cuts) 0 cuts [] [] ;;
             let results := fst arrays in
             let errors := snd arrays in
             try_catch (unlinkSync env inputPath)
               (fun cleanupError =>
                  console_log (LogCleanupFailed (message cleanupError))) ;;;
             now <- read_clock env ;;
             let duration := toFixed env 2 ((now - startTime) / 1000)%float in
             console_log (LogCompleted duration (length results) (length errors)) ;;;
             ret (res_json 200
                    [("success", VBool (0 <? length results));
                     ("cuts", VArr (map VStr results));
                     ("errors", match errors with
                                | [] => VUndefined
                                | _ => VArr (map error_obj errors)
                                end);
                     ("processingTime", VStr (duration +:+ "s"))])
         | Some _ =>
             ret (res_json 400
                    [("success", VBool false);
                     ("error",
                      VStr "No cuts provided. Send an array of { start, end } objects.")])
         end
     end)
    (fun error =>
       console_log (LogServerError error) ;;;
       match req_file req with
       | Some file =>
           if non_empty (file_path file)
           then try_catch (unlinkSync env (file_path file)) (fun _ => ret tt)
           else ret tt
       | None => ret tt
       end ;;;
       ret (res_json 500
              [("success", VBool false);
               ("error", VStr (if non_empty (message error) then message error
                               else "Internal server error"))])).

(** ** Reading a batch and its outcomes *)

(** The value of a completed conversion is a zero. *)
Definition gives_zero (c : completion number) : bool :=
  match c with
  | Normal x => PrimFloat.is_zero x
  | Throw _ => false
  end.

(** The normalized start and end of a cut, in the order the loop computes
    them; the first exception on the way is the one that escapes. *)
Definition bounds (cut : jsval) : completion (number * number) :=
  match get_prop cut "start" with
  | Throw e => Throw e
  | Normal start =>
      match timestampToSeconds start with
      | Throw e => Throw e
      | Normal s =>
          match get_prop cut "end" with
          | Throw e => Throw e
          | Normal end_ =>
              match timestampToSeconds end_ with
              | Throw e => Throw e
              | Normal e => Normal (s, e)
              end
          end
      end
  end.

(** [cut.k], where reading it does not throw. *)
Definition prop (cut : jsval) (k : string) : jsval :=
  match get_prop cut k with
  | Normal v => v
  | Throw _ => VUndefined
  end.

(** The entry the range check pushes for the cut at index [i]. *)
Definition range_failure (env : Env) (i : nat) (cut : jsval) : CutError :=
  {| index := i;
     error := "Invalid time range: " +:+ template env (prop cut "start")
              +:+ " to " +:+ template env (prop cut "end") |}.

(** A timestamp [timestampToSeconds] accepts: a number or a string. *)
Definition timespec (v : jsval) : bool :=
  match v with
  | VNum _ | VStr _ => true
  | _ => false
  end.

(** A cut request: an object whose [start] and [end] are timestamps. *)
Definition cut_request (cut : jsval) : bool :=
  match cut with
  | VObj props => timespec (assoc "start" props) && timespec (assoc "end" props)
  | _ => false
  end.

(** The start and duration the transcoder is to be asked for, when the cut
    passes the range check. *)
Definition requested (cut : jsval) : option (number * number) :=
  match bounds cut with
  | Normal (s, e) => if PrimFloat.leb e s then None else Some (s, (e - s)%float)
  | Throw _ => None
  end.

Definition call_range (c : EngineCall) : number * number :=
  (call_start c, call_duration c).

(** The outcome of one cut: an output path pushed onto [results], or an
    entry pushed onto [errors]. *)
Inductive CutOutcome :=
| Success (outputPath : string)
| Failure (e : CutError).

Definition successes (outs : list CutOutcome) : list string :=
  omap (fun o => match o with Success p => Some p | Failure _ => None end) outs.

Definition failures (outs : list CutOutcome) : list CutError :=
  omap (fun o => match o with Failure e => Some e | Success _ => None end) outs.

(** [o] is an outcome for the cut at index [i]: a success only if the
    transcoder was asked for it, a failure only under its own index. *)
Definition outcome_of (i : nat) (cut : jsval) (o : CutOutcome) : Prop :=
  match o with
  | Success _ => is_Some (requested cut)
  | Failure e => index e = i
  end.

(** A property of the response body. *)
Definition field (k : string) (r : Response) : jsval :=
  match body r with
  | VObj props => assoc k props
  | _ => VUndefined
  end.

(** The world once [Date.now()] has been read. *)
Definition tick (w : World) : World :=
  {| disk := disk w; engine_log := engine_log w; unlink_log := unlink_log w;
     console := console w; uuid_drawn := uuid_drawn w;
     clock_reads := S (clock_reads w) |}.

(** The world in which the loop over [cuts] starts. *)
Definition batch_start (file : UploadedFile) (cuts : list jsval) (w : World) : World :=
  {| disk := disk w; engine_log := engine_log w; unlink_log := unlink_log w;
     console := console w ++ [LogProcessing (length cuts) (originalname file)];
     uuid_drawn := uuid_drawn w; clock_reads := S (clock_reads w) |}.

(** The message [unlinkSync p] would throw in [w], if it would throw. *)
Definition unlink_failure (env : Env) (p : string) (w : World) : option string :=
  match unlink_fault env (length (unlink_log w)) p with
  | Some msg => Some msg
  | None =>
      if decide (p ∈ disk w) then None
      else Some ("ENOENT: no such file or directory, unlink '" +:+ p +:+ "'")
  end.

(** [env], with the system's answers to [unlink] replaced by [f]. *)
Definition with_unlink_fault (f : nat -> string -> option string) (env : Env) : Env :=
  {| ffmpegPath := ffmpegPath env; CUTS_DIR := CUTS_DIR env;
     uuidv4 := uuidv4 env; Date_now := Date_now env;
     ffmpeg_run := ffmpeg_run env; unlink_fault := f;
     JSON_parse := JSON_parse env; Number_toString := Number_toString env;
     toFixed := toFixed env |}.

(** The console holds the handler's warning about a failed cleanup. *)
Definition is_cleanup_warning (e : LogEntry) : bool :=
  match e with LogCleanupFailed _ => true | _ => false end.

Definition cleanup_logged (w : World) : bool :=
  existsb is_cleanup_warning (console w).

(** The [processingTime] reported when the loop started from [w] and
    ended in [w2]. *)
Definition processing_time (env : Env) (w w2 : World) : string :=
  toFixed env 2 ((Date_now env (clock_reads w2) - Date_now env (clock_reads w))
                 / 1000)%float.

Definition is_array (v : jsval) : bool :=
  match v with VArr _ => true | _ => false end.

(** ** A concrete environment, to run the handlers on *)

Module Demo.

Definition upload : UploadedFile :=
  {| file_path := "uploads/3f2a.mp4"; originalname := "talk.mp4" |}.

(** The disk once the upload middleware has stored the file. *)
Definition w0 : World :=
  {| disk := {[ "uploads/3f2a.mp4" ]}; engine_log := []; unlink_log := [];
     console := []; uuid_drawn := 0; clock_reads := 0 |}.

Definition cut (a b : jsval) : jsval := VObj [("start", a); ("end", b)].

(** JSON texts: [q s] is [s] between double quotes, [cut_text a b] is
    the object with [start] bound to [a] and [end] bound to [b]. *)
Definition q (s : string) : string := dq +:+ s +:+ dq.

Definition cut_text (a b : string) : string :=
  "{" +:+ q "start" +:+ ":" +:+ a +:+ "," +:+ q "end" +:+ ":" +:+ b +:+ "}".

Definition text_two : string :=
  "[" +:+ cut_text (q "00:00:05") (q "00:00:12") +:+ ","
      +:+ cut_text (q "00:00:20") (q "00:00:10") +:+ "]".

Definition text_three : string :=
  "[" +:+ cut_text "1" "4" +:+ "," +:+ cut_text (q "0:30") (q "1:00") +:+ ","
      +:+ cut_text (q "abc") (q "7") +:+ "]".

Definition text_untyped : string := "[" +:+ cut_text "0" "2" +:+ ",{}]".

(** [JSON.parse], tabulated on the texts above, [[]] and [{}]; any other
    text is taken to be unparsable. *)
Definition parse (text : string) : option jsval :=
  if String.eqb text "[]" then Some (VArr [])
  else if String.eqb text text_two then
    Some (VArr [cut (VStr "00:00:05") (VStr "00:00:12");
                cut (VStr "00:00:20") (VStr "00:00:10")])
  else if String.eqb text text_three then
    Some (VArr [cut (VNum 1) (VNum 4);
                cut (VStr "0:30") (VStr "1:00");
                cut (VStr "abc") (VStr "7")])
  else if String.eqb text text_untyped then
    Some (VArr [cut (VNum 0) (VNum 2); VObj []])
  else if String.eqb text "{}" then Some (VObj [])
  else None.

(** The transcoder succeeds, except on the invocations listed in [bad];
    [unlink] is refused with [fault] when one is given. *)
Definition env (bad : list nat) (fault : option string) : Env :=
  {| ffmpegPath := "/app/node_modules/ffmpeg-static/ffmpeg";
     CUTS_DIR := "/app/cuts";
     uuidv4 := fun n => "clip" +:+ String (ascii_of_nat (97 + n)) "";
     Date_now := fun n => of_nat (1000 * n);
     ffmpeg_run := fun n _ =>
       {| run_cmd := Some "ffmpeg"; run_progress := [];
          run_error := if bool_decide (n ∈ bad) then Some "ffmpeg exited with code 1"
                       else None |};
     unlink_fault := fun _ _ => fault;
     JSON_parse := parse;
     Number_toString := fun _ => "n";
     toFixed := fun _ _ => "1.00" |}.

Definition request (text : string) : Request :=
  {| req_file := Some upload; body_cuts := Some text |}.

End Demo.

(** ** Clips, and what else the module defines *)

(** [parts.join(':')], the inverse of [split(':')]. *)
Fixpoint join_colon (parts : list string) : string :=
  match parts with
  | [] => ""
  | [p] => p
  | p :: rest => p +:+ ":" +:+ join_colon rest
  end.

(** The output file of the cut for which the [n]-th identifier was drawn:
    its name, where it is written, and how the response refers to it. *)
Definition clip_name (env : Env) (n : nat) : string := uuidv4 env n +:+ ".mp4".

Definition clip_path (env : Env) (n : nat) : string :=
  path_join (CUTS_DIR env) (clip_name env n).

Definition clip_url (env : Env) (n : nat) : string := "cuts/" +:+ clip_name env n.

(** The invocation [cutVideoSegment] makes for a cut with bounds [s] and
    [e] whose output is the [n]-th clip. *)
Definition the_call (env : Env) (inputPath : string) (n : nat) (s e : number)
    : EngineCall :=
  {| call_input := inputPath;
     call_output := clip_path env n;
     call_start := s;
     call_duration := (e - s)%float;
     call_videoCodec := "libx264";
     call_audioCodec := "aac";
     call_outputOptions :=
       ["-preset veryfast"; "-crf 23"; "-movflags +faststart";
        "-avoid_negative_ts make_zero"] |}.

(** Of the invocations [calls], made when [g] invocations had been made
    before and numbered as clips from [u] on, the clips the transcoder
    completed. *)
Fixpoint produced (env : Env) (u g : nat) (calls : list EngineCall) : list nat :=
  match calls with
  | [] => []
  | c :: rest =>
      match run_error (ffmpeg_run env g c) with
      | None => u :: produced env (S u) (S g) rest
      | Some _ => produced env (S u) (S g) rest
      end
  end.

(** *** The upload filter and the error middleware *)

Definition allowedMimes : list string :=
  ["video/mp4"; "video/webm"; "video/quicktime"; "video/x-msvideo"; "video/mpeg"].

(** [fileFilter]: [cb(null, true)], or [cb(new Error(...))]. *)
Definition fileFilter (mimetype : string) : completion bool :=
  if bool_decide (mimetype ∈ allowedMimes) then Normal true
  else Throw (Error "Invalid file type. Only video files are allowed.").

(** An error as the error middleware receives it: its [code] when it is an
    instance of [multer.MulterError], and the error itself. *)
Record ExpressError := { multer_code : option string; raised : JsError }.

(** The error-handling middleware: what it writes with [console.error]
    and what it sends. *)
Definition error_middleware (error : ExpressError) : JsError * Response :=
  (raised error,
   if match multer_code error with
      | Some code => String.eqb code "LIMIT_FILE_SIZE"
      | None => false
      end
   then res_json 413
          [("success", VBool false);
           ("error", VStr "File too large. Maximum size is 2GB.")]
   else res_json 500
          [("success", VBool false);
           ("error", VStr (if non_empty (message (raised error))
                           then message (raised error)
                           else "Internal server error"))]).

(** The text of the [error] property of a response, when it has one. *)
Definition error_text (r : Response) : string :=
  match field "error" r with
  | VStr msg => msg
  | _ => ""
  end.

(** The response is made from what the loop returned and from the clock,
    and from nothing else. *)
Definition response_of (env : Env) (w w2 : World)
    (r : completion (list string * list CutError)) : Response :=
  match r with
  | Normal (results, errors) =>
      res_json 200
        [("success", VBool (0 <? length results));
         ("cuts", VArr (map VStr results));
         ("errors", match errors with
                    | [] => VUndefined
                    | _ => VArr (map error_obj errors)
                    end);
         ("processingTime", VStr (processing_time env w w2 +:+ "s"))]
  | Throw err =>
      res_json 500
        [("success", VBool false);
         ("error", VStr (if non_empty (message err) then message err
                         else "Internal server error"))]
  end.

(** * Properties *)

(** ** Splitting on colons *)

Section Split.

Lemma split_colon_nonempty (s : string) : split_colon s <> [].
Proof.
  induction s as [|c r IH]; simpl; [discriminate|].
  destruct (is_char c 58); [discriminate|].
  destruct (split_colon r); discriminate.
Qed.

Lemma split_colon_length (s : string) : length (split_colon s) = S (colons s).
Proof.
  induction s as [|c r IH]; simpl; [reflexivity|].
  destruct (is_char c 58); simpl; [now rewrite IH|].
  destruct (split_colon r) as [|p ps] eqn:E; simpl in *; [discriminate IH|exact IH].
Qed.

(** A piece without a colon, then a colon: the piece is the first part. *)
Lemma split_colon_app (a r : string) :
  colons a = 0 -> split_colon (a +:+ ":" +:+ r) = a :: split_colon r.
Proof.
  induction a as [|c a IH]; simpl; intros H; [reflexivity|].
  destruct (is_char c 58); [discriminate H|].
  simpl in H. now rewrite (IH H).
Qed.

Lemma split_colon_single (a : string) : colons a = 0 -> split_colon a = [a].
Proof.
  induction a as [|c a IH]; simpl; intros H; [reflexivity|].
  destruct (is_char c 58); [discriminate H|].
  simpl in H. now rewrite (IH H).
Qed.

End Split.

(** ** [timestampToSeconds] *)

(** A string never makes [timestampToSeconds] throw. *)
Lemma timestampToSeconds_string_normal (s : string) :
  exists x, timestampToSeconds (VStr s) = Normal x.
Proof.
  unfold timestampToSeconds.
  destruct (map Number (split_colon s)) as [|a [|b [|c [|d l]]]]; eauto.
Qed.

Lemma timestampToSeconds_two (m s : string) :
  colons m = 0 -> colons s = 0 ->
  timestampToSeconds (VStr (m +:+ ":" +:+ s))
  = Normal (Number m * 60 + Number s)%float.
Proof.
  intros Hm Hs. unfold timestampToSeconds.
  now rewrite (split_colon_app m s Hm), (split_colon_single s Hs).
Qed.

Lemma timestampToSeconds_three (h m s : string) :
  colons h = 0 -> colons m = 0 -> colons s = 0 ->
  timestampToSeconds (VStr (h +:+ ":" +:+ m +:+ ":" +:+ s))
  = Normal (Number h * 3600 + Number m * 60 + Number s)%float.
Proof.
  intros Hh Hm Hs. unfold timestampToSeconds.
  now rewrite (split_colon_app h _ Hh), (split_colon_app m s Hm),
    (split_colon_single s Hs).
Qed.

Lemma timestampToSeconds_other (t : string) :
  colons t <> 1 -> colons t <> 2 ->
  timestampToSeconds (VStr t) = Normal (or_else (parseFloat t) 0%float).
Proof.
  intros H1 H2. pose proof (split_colon_length t) as L. unfold timestampToSeconds.
  destruct (split_colon t) as [|a [|b [|c [|d l]]]]; simpl in *;
    try reflexivity; exfalso; [apply H1 | apply H2]; lia.
Qed.

(** C5: a number is returned as it is; ["M:S"] gives [M*60+S] and
    ["H:M:S"] gives [H*3600+M*60+S], on the components converted by
    [Number]; a string with any other number of colons goes through
    [parseFloat] (with [|| 0] applied to the outcome). *)
Theorem timestampToSeconds_shapes :
  (forall x : number, timestampToSeconds (VNum x) = Normal x)
  /\ (forall m s : string, colons m = 0 -> colons s = 0 ->
        timestampToSeconds (VStr (m +:+ ":" +:+ s))
        = Normal (Number m * 60 + Number s)%float)
  /\ (forall h m s : string, colons h = 0 -> colons m = 0 -> colons s = 0 ->
        timestampToSeconds (VStr (h +:+ ":" +:+ m +:+ ":" +:+ s))
        = Normal (Number h * 3600 + Number m * 60 + Number s)%float)
  /\ (forall t : string, colons t <> 1 -> colons t <> 2 ->
        timestampToSeconds (VStr t) = Normal (or_else (parseFloat t) 0%float)
        /\ (truthy (parseFloat t) = true ->
            timestampToSeconds (VStr t) = Normal (parseFloat t))).
Proof.
  split_and!.
  - reflexivity.
  - exact timestampToSeconds_two.
  - exact timestampToSeconds_three.
  - intros t H1 H2. rewrite (timestampToSeconds_other t H1 H2). split; [reflexivity|].
    intros T. unfold or_else. now rewrite T.
Qed.

Lemma timestampToSeconds_shapes_witness :
  timestampToSeconds (VStr "01:30") = Normal 90%float
  /\ timestampToSeconds (VStr "01:02:03") = Normal 3723%float
  /\ timestampToSeconds (VStr "90.5") = Normal 90.5%float.
Proof.
  destruct timestampToSeconds_shapes as (_ & H2 & H3 & H4).
  split; [|split].
  - exact (H2 "01" "30" eq_refl eq_refl).
  - exact (H3 "01" "02" "03" eq_refl eq_refl eq_refl).
  - refine (proj2 (H4 "90.5" _ _) _); [discriminate | discriminate | reflexivity].
Defined.

(** ** Subtracting and comparing with zero *)

Section FloatZero.

Local Open Scope float_scope.

Lemma leb_sub_zero_r (e : number) : (e - 0 <=? 0) = (e <=? 0).
Proof.
  rewrite !leb_spec, sub_spec.
  destruct (Prim2SF e) as [s|s| |s m x]; try reflexivity; destruct s; reflexivity.
Qed.

Lemma leb_sub_zero_l (s : number) : (0 - s <=? 0) = (0 <=? s).
Proof.
  rewrite !leb_spec, sub_spec.
  destruct (Prim2SF s) as [b|b| |b m x]; try reflexivity; destruct b; reflexivity.
Qed.

End FloatZero.

(** ** Malformed timestamps *)

(** [parseFloat] reads the numeric start of a string and ignores what
    follows it. *)
Example parseFloat_prefix :
  timestampToSeconds (VStr "12abc") = Normal 12%float
  /\ timestampToSeconds (VStr "1:2:3:4") = Normal 1%float.
Proof. split; reflexivity. Qed.

(** A colon form whose components are not numeric gives [NaN], which the
    range check [end <= start] lets through. *)
Example colon_form_nan :
  timestampToSeconds (VStr "a:b") = Normal NaN
  /\ PrimFloat.leb NaN 5%float = false
  /\ PrimFloat.leb 5%float NaN = false.
Proof. repeat split; reflexivity. Qed.

(** C4, as stated, fails: ["12abc"] is not a well-formed timestamp, and
    [timestampToSeconds] returns 12 for it, not 0. *)
Lemma malformed_not_always_zero :
  ~ (forall s : string, well_formed s = false ->
       timestampToSeconds (VStr s) = Normal 0%float).
Proof.
  intros H. specialize (H "12abc" eq_refl).
  apply (f_equal gives_zero) in H. vm_compute in H. discriminate H.
Qed.

(** C4, amended: no string makes [timestampToSeconds] throw; a string that
    is not a two- or three-component colon form and in which [parseFloat]
    finds no number (or finds a zero) gives 0; and when a cut's start or
    end has come out as 0 and the duration [end - start] is not positive,
    the pass records the invalid-range failure for it and leaves the world
    as it was. *)
Theorem malformed_degrades_to_zero :
  (forall t : string, exists x, timestampToSeconds (VStr t) = Normal x)
  /\ (forall t : string, colons t <> 1 -> colons t <> 2 ->
        truthy (parseFloat t) = false ->
        timestampToSeconds (VStr t) = Normal 0%float)
  /\ (forall env inputPath total i cut results errors w start end_ s e,
        get_prop cut "start" = Normal start ->
        get_prop cut "end" = Normal end_ ->
        timestampToSeconds start = Normal s ->
        timestampToSeconds end_ = Normal e ->
        s = 0%float \/ e = 0%float ->
        PrimFloat.leb (e - s) 0 = true ->
        process_cut env inputPath total i cut results errors w
        = (Normal (results,
                   errors ++ [{| index := i;
                                 error := "Invalid time range: " +:+ template env start
                                          +:+ " to " +:+ template env end_ |}]),
           w)).
Proof.
  split; [exact timestampToSeconds_string_normal|split].
  - intros t H1 H2 T.
    rewrite (timestampToSeconds_other t H1 H2). unfold or_else. now rewrite T.
  - intros env inputPath total i cut results errors w start end_ s e
      Hs He Ts Te Z D.
    assert (R : PrimFloat.leb e s = true).
    { destruct Z as [-> | ->].
      - now rewrite leb_sub_zero_r in D.
      - now rewrite leb_sub_zero_l in D. }
    unfold process_cut, bind, lift, ret. now rewrite Hs, Ts, He, Te, R.
Qed.

Lemma malformed_degrades_to_zero_witness :
  timestampToSeconds (VStr "abc") = Normal 0%float
  /\ process_cut (Demo.env [] None) "uploads/3f2a.mp4" 1 0
       (Demo.cut (VStr "10") (VStr "abc")) [] [] Demo.w0
     = (Normal ([], [{| index := 0; error := "Invalid time range: 10 to abc" |}]),
        Demo.w0).
Proof.
  destruct malformed_degrades_to_zero as (_ & H2 & H3).
  split.
  - apply (H2 "abc"); [discriminate | discriminate | reflexivity].
  - apply (H3 (Demo.env [] None) "uploads/3f2a.mp4" 1 0
             (Demo.cut (VStr "10") (VStr "abc")) [] [] Demo.w0
             (VStr "10") (VStr "abc") 10%float 0%float);
      try reflexivity.
    right; reflexivity.
Defined.

(** ** One pass of the loop *)

Lemma process_cut_throws env inputPath total i cut results errors w err :
  bounds cut = Throw err ->
  process_cut env inputPath total i cut results errors w = (Throw err, w).
Proof.
  unfold bounds, process_cut, bind, lift.
  destruct (get_prop cut "start") as [a|]; [|congruence].
  destruct (timestampToSeconds a); [|congruence].
  destruct (get_prop cut "end") as [b|]; [|congruence].
  destruct (timestampToSeconds b); congruence.
Qed.

Lemma process_cut_rejects env inputPath total i cut results errors w s e :
  bounds cut = Normal (s, e) ->
  PrimFloat.leb e s = true ->
  process_cut env inputPath total i cut results errors w
  = (Normal (results, errors ++ [range_failure env i cut]), w).
Proof.
  unfold bounds, process_cut, range_failure, prop, bind, lift, ret.
  destruct (get_prop cut "start") as [a|]; [|congruence].
  destruct (timestampToSeconds a); [|congruence].
  destruct (get_prop cut "end") as [b|]; [|congruence].
  destruct (timestampToSeconds b); [|congruence].
  intros [= -> ->] ->. reflexivity.
Qed.

(** A cut that passes the range check costs one invocation of the
    transcoder, on the requested range, and leaves one outcome, whichever
    way the transcoder answers. *)
Lemma process_cut_invokes env inputPath total i cut results errors w s e :
  bounds cut = Normal (s, e) ->
  PrimFloat.leb e s = false ->
  exists o c w',
    process_cut env inputPath total i cut results errors w
    = (Normal (results ++ successes [o], errors ++ failures [o]), w')
    /\ outcome_of i cut o
    /\ engine_log w' = engine_log w ++ [c]
    /\ call_input c = inputPath
    /\ call_range c = (s, (e - s)%float)
    /\ unlink_log w' = unlink_log w
    /\ disk w ⊆ disk w'.
Proof.
  intros B R.
  assert (Q : is_Some (requested cut)) by (unfold requested; rewrite B, R; eauto).
  revert B. unfold bounds, process_cut, bind, lift.
  destruct (get_prop cut "start") as [a|]; [|congruence].
  destruct (timestampToSeconds a); [|congruence].
  destruct (get_prop cut "end") as [b|]; [|congruence].
  destruct (timestampToSeconds b); [|congruence].
  intros [= -> ->]. rewrite R.
  unfold draw_uuid, try_catch, cutVideoSegment, bind, console_log, ret. simpl.
  destruct (run_error _) as [msg|]; simpl.
  - eexists (Failure _), _, _. simpl. rewrite !app_nil_r.
    repeat split; try reflexivity.
  - eexists (Success _), _, _. simpl. rewrite !app_nil_r.
    repeat split; try reflexivity; [exact Q | set_solver].
Qed.

(** ** Cut requests and the exceptions of normalization *)

Lemma cut_request_bounds (cut : jsval) :
  cut_request cut = true -> exists s e, bounds cut = Normal (s, e).
Proof.
  destruct cut as [| | | | |l|props]; try discriminate. unfold cut_request, bounds.
  simpl. intros [Ha Hb]%andb_true_iff.
  destruct (assoc "start" props) as [| | |x|t| |]; try discriminate Ha;
    destruct (assoc "end" props) as [| | |y|u| |]; try discriminate Hb.
  - eauto.
  - destruct (timestampToSeconds_string_normal u) as [e ->]. eauto.
  - destruct (timestampToSeconds_string_normal t) as [s ->]. eauto.
  - destruct (timestampToSeconds_string_normal t) as [s ->].
    destruct (timestampToSeconds_string_normal u) as [e ->]. eauto.
Qed.

Lemma timestampToSeconds_throws (v : jsval) :
  timespec v = false ->
  exists err, timestampToSeconds v = Throw err
              /\ err_name err = "TypeError" /\ non_empty (message err) = true.
Proof.
  destruct v; try discriminate; intros _; eexists; repeat split.
Qed.

(** Anything that is not a cut request makes the pass throw a [TypeError],
    from reading a property or from [timestampToSeconds]. *)
Lemma not_cut_request_bounds (cut : jsval) :
  cut_request cut = false ->
  exists err, bounds cut = Throw err
              /\ err_name err = "TypeError" /\ non_empty (message err) = true.
Proof.
  unfold bounds.
  destruct cut as [| | | | |l|props]; intros H;
    try (eexists; repeat split; fail).
  simpl in *. apply andb_false_iff in H.
  destruct (timespec (assoc "start" props)) eqn:Ha.
  - destruct H as [H|H]; [discriminate H|].
    assert (exists s, timestampToSeconds (assoc "start" props) = Normal s) as [s ->].
    { destruct (assoc "start" props); try discriminate Ha; eauto.
      apply timestampToSeconds_string_normal. }
    destruct (timestampToSeconds_throws _ H) as (err & -> & ?). eauto.
  - destruct (timestampToSeconds_throws _ Ha) as (err & -> & ?). eauto.
Qed.

(** ** The loop *)

Lemma successes_cons (o : CutOutcome) (outs : list CutOutcome) :
  successes (o :: outs) = successes [o] ++ successes outs.
Proof. destruct o; reflexivity. Qed.

Lemma failures_cons (o : CutOutcome) (outs : list CutOutcome) :
  failures (o :: outs) = failures [o] ++ failures outs.
Proof. destruct o; reflexivity. Qed.

Lemma outcomes_count (outs : list CutOutcome) :
  length (successes outs) + length (failures outs) = length outs.
Proof.
  induction outs as [|o outs IH]; [reflexivity|].
  destruct o; simpl; fold (successes outs) (failures outs); lia.
Qed.

(** On cut requests the loop runs to its end: every cut leaves one
    outcome in its own position, and every cut that passes the range check
    is handed to the transcoder, in order, whatever became of the cuts
    before it. *)
Lemma cut_loop_outcomes env inputPath total cuts :
  Forall (fun c => cut_request c = true) cuts ->
  forall i results errors w,
  exists outs calls w',
    cut_loop env inputPath total i cuts results errors w
    = (Normal (results ++ successes outs, errors ++ failures outs), w')
    /\ length outs = length cuts
    /\ (forall k cut, cuts !! k = Some cut ->
          exists o, outs !! k = Some o /\ outcome_of (i + k) cut o)
    /\ engine_log w' = engine_log w ++ calls
    /\ map call_range calls = omap requested cuts
    /\ Forall (fun c => call_input c = inputPath) calls
    /\ unlink_log w' = unlink_log w
    /\ disk w ⊆ disk w'.
Proof.
  induction 1 as [|cut rest Hc _ IH]; intros i results errors w.
  - exists [], [], w. simpl. rewrite !app_nil_r.
    split_and!; auto. intros k cut Hk. destruct k; discriminate Hk.
  - destruct (cut_request_bounds cut Hc) as (s & e & B).
    simpl. unfold bind at 1.
    destruct (PrimFloat.leb e s) eqn:R.
    + rewrite (process_cut_rejects _ _ _ _ _ _ _ _ _ _ B R). simpl.
      destruct (IH (S i) results (errors ++ [range_failure env i cut]) w)
        as (outs & calls & w' & E & L & P & G & Q & I & U & D).
      exists (Failure (range_failure env i cut) :: outs), calls, w'.
      rewrite E, failures_cons, successes_cons. simpl. rewrite <- app_assoc.
      split_and!.
      * reflexivity.
      * now rewrite L.
      * intros [|k] c Hk; simpl in *.
        -- injection Hk as <-. eexists; split; [reflexivity|]. simpl. lia.
        -- destruct (P k c Hk) as (o & Ho & Oo). exists o. split; [exact Ho|].
           now replace (i + S k) with (S i + k) by lia.
      * exact G.
      * unfold requested at 1. now rewrite B, R.
      * exact I.
      * exact U.
      * exact D.
    + destruct (process_cut_invokes env inputPath total i cut results errors w s e B R)
        as (o & c & w1 & E1 & O1 & G1 & I1 & C1 & U1 & D1).
      rewrite E1. cbn [fst snd].
      destruct (IH (S i) (results ++ successes [o]) (errors ++ failures [o]) w1)
        as (outs & calls & w' & E & L & P & G & Q & I & U & D).
      exists (o :: outs), (c :: calls), w'.
      rewrite E, (failures_cons o outs), (successes_cons o outs), <- !app_assoc.
      split_and!.
      * reflexivity.
      * simpl. now rewrite L.
      * intros [|k] c' Hk; simpl in *.
        -- injection Hk as <-. exists o. split; [reflexivity|].
           now replace (i + 0) with i by lia.
        -- destruct (P k c' Hk) as (o' & Ho & Oo). exists o'. split; [exact Ho|].
           now replace (i + S k) with (S i + k) by lia.
      * rewrite G, G1, <- app_assoc. reflexivity.
      * simpl. unfold requested at 1. rewrite B, R, C1. now rewrite Q.
      * constructor; assumption.
      * congruence.
      * set_solver.
Qed.

(** The loop never unlinks, and never takes a file off the disk, however
    it ends. *)
Lemma process_cut_frame env inputPath total i cut results errors w :
  unlink_log (snd (process_cut env inputPath total i cut results errors w))
  = unlink_log w
  /\ disk w ⊆ disk (snd (process_cut env inputPath total i cut results errors w)).
Proof.
  destruct (bounds cut) as [[s e]|err] eqn:B.
  - destruct (PrimFloat.leb e s) eqn:R.
    + rewrite (process_cut_rejects _ _ _ _ _ _ _ _ _ _ B R). split; reflexivity.
    + destruct (process_cut_invokes env inputPath total i cut results errors w s e B R)
        as (o & c & w1 & -> & _ & _ & _ & _ & U & D). split; assumption.
  - rewrite (process_cut_throws _ _ _ _ _ _ _ _ _ B). split; reflexivity.
Qed.

Lemma cut_loop_frame env inputPath total cuts :
  forall i results errors w,
    unlink_log (snd (cut_loop env inputPath total i cuts results errors w))
    = unlink_log w
    /\ disk w ⊆ disk (snd (cut_loop env inputPath total i cuts results errors w)).
Proof.
  induction cuts as [|cut rest IH]; intros i results errors w; simpl.
  - split; reflexivity.
  - unfold bind.
    pose proof (process_cut_frame env inputPath total i cut results errors w) as [U D].
    destruct (process_cut env inputPath total i cut results errors w) as [[a|err] w1];
      simpl in *; [|split; assumption].
    pose proof (IH (S i) (fst a) (snd a) w1) as [U' D'].
    split; [congruence | set_solver].
Qed.

(** An element that is not a cut request aborts the loop with the
    exception its normalization throws; the cuts before the first such
    element have been processed by then. *)
Lemma cut_loop_aborts env inputPath total cuts :
  Exists (fun c => cut_request c = false) cuts ->
  forall i results errors w,
  exists k cut err w',
    cut_loop env inputPath total i cuts results errors w = (Throw err, w')
    /\ cuts !! k = Some cut
    /\ cut_request cut = false
    /\ Forall (fun c => cut_request c = true) (take k cuts)
    /\ bounds cut = Throw err
    /\ err_name err = "TypeError"
    /\ non_empty (message err) = true.
Proof.
  induction cuts as [|cut rest IH]; intros X i results errors w;
    [inversion X|].
  simpl. unfold bind at 1.
  destruct (cut_request cut) eqn:C.
  - apply Exists_cons in X as [X|X]; [congruence|].
    destruct (cut_loop_outcomes env inputPath total [cut]
                ltac:(constructor; [exact C|constructor]) i results errors w)
      as (outs & calls & w1 & E & _).
    simpl in E. unfold bind in E.
    destruct (process_cut env inputPath total i cut results errors w) as [[a|e1] w2];
      [|discriminate E].
    destruct (IH X (S i) (fst a) (snd a) w2) as (k & c & err & w' & E' & K & B & F & T).
    exists (S k), c, err, w'. split_and!; try tauto.
    simpl. constructor; assumption.
  - destruct (not_cut_request_bounds cut C) as (err & B & N & M).
    rewrite (process_cut_throws _ _ _ _ _ _ _ _ _ B).
    exists 0, cut, err, w. split_and!; auto.
Qed.

(** ** The handler, path by path *)

(** The 400 paths: the reply is sent with nothing done but reading the
    clock. *)
Lemma cut_video_rejects env req w :
  req_file req = None
  \/ (forall c cs, JSON_parse env (cuts_text req) <> Some (VArr (c :: cs))) ->
  exists msg,
    cut_video env req w
    = (Normal (res_json 400 [("success", VBool false); ("error", VStr msg)]), tick w).
Proof.
  intros H. unfold cut_video, bind, read_clock, try_catch, ret. fold (tick w).
  destruct (req_file req) as [file|]; [|eauto].
  destruct H as [H|H]; [discriminate H|].
  destruct (JSON_parse env (cuts_text req)) as [v|]; [|eauto].
  destruct v as [| | | | |[|c cs]|]; eauto.
  now destruct (H c cs).
Qed.

Lemma unlinkSync_run env p w :
  exists w',
    unlinkSync env p w
    = (match unlink_failure env p w with
       | Some msg => Throw (Error msg)
       | None => Normal tt
       end, w')
    /\ unlink_log w' = unlink_log w ++ [p]
    /\ engine_log w' = engine_log w
    /\ console w' = console w
    /\ clock_reads w' = clock_reads w
    /\ disk w' = match unlink_failure env p w with
                 | Some _ => disk w
                 | None => disk w ∖ {[p]}
                 end.
Proof.
  unfold unlinkSync, unlink_failure.
  destruct (unlink_fault env (length (unlink_log w)) p) as [msg|];
    [|destruct (decide (p ∈ disk w))]; eexists; split_and!; reflexivity.
Qed.

(** The loop ran to its end: 200, one [unlinkSync] of the upload after the
    loop, and a warning on the console if it failed. *)
Lemma cut_video_completes env req w file c cs results errors w2 :
  req_file req = Some file ->
  JSON_parse env (cuts_text req) = Some (VArr (c :: cs)) ->
  cut_loop env (file_path file) (length (c :: cs)) 0 (c :: cs) [] []
    (batch_start file (c :: cs) w) = (Normal (results, errors), w2) ->
  exists w',
    cut_video env req w
    = (Normal (res_json 200
                 [("success", VBool (0 <? length results));
                  ("cuts", VArr (map VStr results));
                  ("errors", match errors with
                             | [] => VUndefined
                             | _ => VArr (map error_obj errors)
                             end);
                  ("processingTime", VStr (processing_time env w w2 +:+ "s"))]), w')
    /\ unlink_log w' = unlink_log w2 ++ [file_path file]
    /\ engine_log w' = engine_log w2
    /\ disk w' = match unlink_failure env (file_path file) w2 with
                 | Some _ => disk w2
                 | None => disk w2 ∖ {[file_path file]}
                 end
    /\ (is_Some (unlink_failure env (file_path file) w2) -> cleanup_logged w' = true).
Proof.
  intros F J L. unfold batch_start in L.
  unfold cut_video, bind, read_clock, try_catch. rewrite F, J.
  unfold console_log at 1.
  cbn [disk engine_log unlink_log console uuid_drawn clock_reads].
  rewrite L. cbn [fst snd].
  destruct (unlinkSync_run env (file_path file) w2) as (w3 & -> & U & G & C & K & D).
  unfold processing_time. rewrite <- K.
  destruct (unlink_failure env (file_path file) w2) as [msg|];
    unfold console_log, ret; cbn; eexists; (split; [reflexivity|]);
    cbn; split_and!; auto.
  - intros _. unfold cleanup_logged. cbn. rewrite !existsb_app. cbn.
    now rewrite orb_true_r.
  - intros [? ?]. discriminate.
Qed.

(** The loop threw: 500, and one [unlinkSync] of the upload, whose failure
    leaves no trace. *)
Lemma cut_video_aborts env req w file c cs err w2 :
  req_file req = Some file ->
  JSON_parse env (cuts_text req) = Some (VArr (c :: cs)) ->
  cut_loop env (file_path file) (length (c :: cs)) 0 (c :: cs) [] []
    (batch_start file (c :: cs) w) = (Throw err, w2) ->
  non_empty (file_path file) = true ->
  exists w',
    cut_video env req w
    = (Normal (res_json 500
                 [("success", VBool false);
                  ("error", VStr (if non_empty (message err) then message err
                                  else "Internal server error"))]), w')
    /\ unlink_log w' = unlink_log w2 ++ [file_path file]
    /\ engine_log w' = engine_log w2
    /\ console w' = console w2 ++ [LogServerError err]
    /\ disk w' = match unlink_failure env (file_path file) w2 with
                 | Some _ => disk w2
                 | None => disk w2 ∖ {[file_path file]}
                 end.
Proof.
  intros F J L N. unfold batch_start in L.
  unfold cut_video, bind, read_clock, try_catch. rewrite F, J.
  unfold console_log at 1.
  cbn [disk engine_log unlink_log console uuid_drawn clock_reads].
  rewrite L, N. unfold console_log at 1.
  match goal with
  | |- context [unlinkSync env (file_path file) ?w] =>
      destruct (unlinkSync_run env (file_path file) w) as (w3 & -> & U & G & C & K & D)
  end.
  unfold unlink_failure in *. cbn [unlink_log disk] in *.
  destruct (unlink_fault env (length (unlink_log w2)) (file_path file)) as [msg|];
    [|destruct (decide (file_path file ∈ disk w2))];
    unfold ret; eexists; (split; [reflexivity|]); split_and!; auto.
Qed.

Lemma cut_video_aborts_response env req w file c cs err w2 :
  req_file req = Some file ->
  JSON_parse env (cuts_text req) = Some (VArr (c :: cs)) ->
  cut_loop env (file_path file) (length (c :: cs)) 0 (c :: cs) [] []
    (batch_start file (c :: cs) w) = (Throw err, w2) ->
  fst (cut_video env req w)
  = Normal (res_json 500
              [("success", VBool false);
               ("error", VStr (if non_empty (message err) then message err
                               else "Internal server error"))]).
Proof.
  intros F J L. unfold batch_start in L.
  unfold cut_video, bind, read_clock, try_catch. rewrite F, J.
  unfold console_log at 1.
  cbn [disk engine_log unlink_log console uuid_drawn clock_reads].
  rewrite L. unfold console_log at 1.
  destruct (non_empty (file_path file)); [|reflexivity].
  match goal with
  | |- context [unlinkSync env (file_path file) ?w] =>
      destruct (unlinkSync env (file_path file) w) as [[[]|e] w3]
  end; reflexivity.
Qed.

(** ** The system's answer to [unlink] does not reach the response *)

Lemma cut_loop_ignores_unlink f env inputPath total cuts :
  forall i results errors w,
    cut_loop (with_unlink_fault f env) inputPath total i cuts results errors w
    = cut_loop env inputPath total i cuts results errors w.
Proof.
  induction cuts as [|cut rest IH]; intros i results errors w; [reflexivity|].
  simpl. unfold bind.
  change (process_cut (with_unlink_fault f env) inputPath total i cut results errors w)
    with (process_cut env inputPath total i cut results errors w).
  destruct (process_cut env inputPath total i cut results errors w) as [[a|e] w1];
    [apply IH | reflexivity].
Qed.

Lemma response_ignores_unlink f env req w :
  fst (cut_video (with_unlink_fault f env) req w) = fst (cut_video env req w).
Proof.
  destruct (req_file req) as [file|] eqn:F.
  - destruct (JSON_parse env (cuts_text req)) as [v|] eqn:J.
    + assert (J' : JSON_parse (with_unlink_fault f env) (cuts_text req) = Some v)
        by exact J.
      destruct v as [| | | | |[|c cs]|];
        try (unfold cut_video, bind, read_clock, try_catch; rewrite F, J; cbn;
             rewrite J; reflexivity).
      pose proof (cut_loop_ignores_unlink f env (file_path file) (length (c :: cs))
                    (c :: cs) 0 [] [] (batch_start file (c :: cs) w)) as E.
      destruct (cut_loop env (file_path file) (length (c :: cs)) 0 (c :: cs) [] []
                  (batch_start file (c :: cs) w)) as [[[results errors]|err] w2] eqn:L.
      * destruct (cut_video_completes _ _ _ _ _ _ _ _ _ F J' E) as (w1 & -> & _).
        destruct (cut_video_completes _ _ _ _ _ _ _ _ _ F J L) as (w1' & -> & _).
        reflexivity.
      * rewrite (cut_video_aborts_response _ _ _ _ _ _ _ _ F J' E).
        rewrite (cut_video_aborts_response _ _ _ _ _ _ _ _ F J L).
        reflexivity.
    + unfold cut_video, bind, read_clock, try_catch. rewrite F, J. cbn.
      rewrite J. reflexivity.
  - unfold cut_video, bind, read_clock, try_catch. rewrite F. reflexivity.
Qed.

(** The loop over a concatenation is the loop over the first part, then
    the loop over the rest from where the first part left off. *)
Lemma cut_loop_app env inputPath total xs ys :
  forall i results errors w,
    cut_loop env inputPath total i (xs ++ ys) results errors w
    = bind (cut_loop env inputPath total i xs results errors)
        (fun a => cut_loop env inputPath total (i + length xs) ys (fst a) (snd a)) w.
Proof.
  induction xs as [|x xs IH]; intros i results errors w.
  - simpl. unfold bind, ret. simpl. now rewrite Nat.add_0_r.
  - simpl. unfold bind.
    destruct (process_cut env inputPath total i x results errors w) as [[a|err] w1];
      [|reflexivity].
    rewrite IH. unfold bind. now replace (S i + length xs) with (i + S (length xs)) by lia.
Qed.

Lemma failures_indices (outs : list CutOutcome) (i : nat) :
  (forall k e, outs !! k = Some (Failure e) -> index e = i + k) ->
  Forall (fun e => i <= index e < i + length outs) (failures outs).
Proof.
  revert i. induction outs as [|o outs IH]; intros i H; [constructor|].
  assert (T : Forall (fun e => i <= index e < i + length (o :: outs)) (failures outs)).
  { eapply Forall_impl; [apply (IH (S i))|].
    - intros k e Hk. rewrite (H (S k) e Hk). lia.
    - simpl. intros e He. lia. }
  destruct o as [p|e]; [exact T|].
  change (failures (Failure e :: outs)) with (e :: failures outs).
  constructor; [|exact T]. rewrite (H 0 e eq_refl). simpl. lia.
Qed.

(** The failures among the outcomes of a run of the loop carry the index
    of their position. *)
Lemma outcomes_failure_index (cuts : list jsval) (outs : list CutOutcome) (i : nat) :
  length outs = length cuts ->
  (forall k cut, cuts !! k = Some cut ->
     exists o, outs !! k = Some o /\ outcome_of (i + k) cut o) ->
  forall k e, outs !! k = Some (Failure e) -> index e = i + k.
Proof.
  intros Len P k e Hk.
  pose proof (lookup_lt_Some _ _ _ Hk) as Hl. rewrite Len in Hl.
  apply lookup_lt_is_Some in Hl as [cut Hc].
  destruct (P k cut Hc) as (o & Ho & Oo). rewrite Hk in Ho. injection Ho as <-.
  exact Oo.
Qed.

(** A batch of cut requests whose element at index [i] fails the range
    check: the cuts before it and the cuts after it are processed as
    usual, and its entry stands in [errors] between theirs. *)
Lemma cut_loop_rejects_at env inputPath total cuts i cut s e :
  Forall (fun c => cut_request c = true) cuts ->
  cuts !! i = Some cut ->
  bounds cut = Normal (s, e) ->
  PrimFloat.leb e s = true ->
  forall w,
  exists outs1 outs2 calls w',
    cut_loop env inputPath total 0 cuts [] [] w
    = (Normal (successes outs1 ++ successes outs2,
               failures outs1 ++ range_failure env i cut :: failures outs2), w')
    /\ Forall (fun x => index x < i) (failures outs1)
    /\ Forall (fun x => i < index x) (failures outs2)
    /\ engine_log w' = engine_log w ++ calls
    /\ map call_range calls
       = omap requested (take i cuts) ++ omap requested (drop (S i) cuts).
Proof.
  intros T K B R w.
  pose proof (lookup_lt_Some _ _ _ K) as Li.
  assert (Lt : length (take i cuts) = i) by (rewrite length_take; lia).
  destruct (cut_loop_outcomes env inputPath total (take i cuts)
              ltac:(apply Forall_take; exact T) 0 [] [] w)
    as (outs1 & calls1 & w1 & L1 & Len1 & P1 & G1 & Q1 & _).
  rewrite !app_nil_l in L1.
  destruct (cut_loop_outcomes env inputPath total (drop (S i) cuts)
              ltac:(apply Forall_drop; exact T) (S i) (successes outs1)
              (failures outs1 ++ [range_failure env i cut]) w1)
    as (outs2 & calls2 & w2 & L2 & Len2 & P2 & G2 & Q2 & _).
  exists outs1, outs2, (calls1 ++ calls2), w2. split_and!.
  - rewrite <- (take_drop_middle cuts i cut K) at 1. rewrite cut_loop_app.
    unfold bind at 1. rewrite L1, Lt. cbn [fst snd cut_loop Nat.add].
    unfold bind. rewrite (process_cut_rejects _ _ _ _ _ _ _ _ _ _ B R).
    cbn [fst snd]. rewrite L2, <- app_assoc. reflexivity.
  - eapply Forall_impl;
      [apply (failures_indices outs1 0 (outcomes_failure_index _ _ 0 Len1 P1))|].
    intros x Hx. cbv beta in Hx |- *. rewrite Len1, Lt in Hx. lia.
  - eapply Forall_impl;
      [apply (failures_indices outs2 (S i) (outcomes_failure_index _ _ (S i) Len2 P2))|].
    intros x Hx. cbv beta in Hx |- *. lia.
  - rewrite G2, G1, <- app_assoc. reflexivity.
  - rewrite map_app, Q1, Q2. reflexivity.
Qed.

(** * The claims about the batch *)

(** C3: when the normalized end of the cut at index [i] is at most its
    normalized start, the pass leaves the world as it was (no invocation
    of the transcoder, no identifier drawn, no file written), pushes onto
    [errors] one entry with index [i] and an "Invalid time range" message,
    and the loop goes on with the cut after it: the cuts that follow get
    their outcomes and their invocations, and the entry is in the arrays
    the loop returns. In a request whose batch holds the cut at index [i],
    the response is a 200 whose [errors] hold that entry, between the
    entries of earlier and of later cuts, and the transcoder has been
    invoked for the cuts before and after it, not for it. *)
Theorem invalid_range_is_recorded env inputPath total i cut rest results errors w s e :
  bounds cut = Normal (s, e) ->
  PrimFloat.leb e s = true ->
  process_cut env inputPath total i cut results errors w
  = (Normal (results, errors ++ [range_failure env i cut]), w)
  /\ index (range_failure env i cut) = i
  /\ (exists range, error (range_failure env i cut) = "Invalid time range: " +:+ range)
  /\ cut_loop env inputPath total i (cut :: rest) results errors w
     = cut_loop env inputPath total (S i) rest results
         (errors ++ [range_failure env i cut]) w
  /\ (Forall (fun c => cut_request c = true) rest ->
      exists outs calls w',
        cut_loop env inputPath total i (cut :: rest) results errors w
        = (Normal (results ++ successes outs,
                   errors ++ range_failure env i cut :: failures outs), w')
        /\ length outs = length rest
        /\ (forall k c, rest !! k = Some c ->
              exists o, outs !! k = Some o /\ outcome_of (S i + k) c o)
        /\ engine_log w' = engine_log w ++ calls
        /\ map call_range calls = omap requested rest)
  /\ (forall req w0 file cuts,
        req_file req = Some file ->
        JSON_parse env (cuts_text req) = Some (VArr cuts) ->
        Forall (fun c => cut_request c = true) cuts ->
        cuts !! i = Some cut ->
        exists before after calls resp w',
          cut_video env req w0 = (Normal resp, w')
          /\ status resp = 200
          /\ field "errors" resp
             = VArr (map error_obj (before ++ range_failure env i cut :: after))
          /\ Forall (fun x => index x < i) before
          /\ Forall (fun x => i < index x) after
          /\ engine_log w' = engine_log w0 ++ calls
          /\ map call_range calls
             = omap requested (take i cuts) ++ omap requested (drop (S i) cuts)).
Proof.
  intros B R.
  pose proof (process_cut_rejects env inputPath total i cut results errors w s e B R) as E.
  split_and!.
  - exact E.
  - reflexivity.
  - eexists. reflexivity.
  - simpl. unfold bind. now rewrite E.
  - intros T.
    destruct (cut_loop_outcomes env inputPath total rest T (S i) results
                (errors ++ [range_failure env i cut]) w)
      as (outs & calls & w' & L & Len & P & G & Q & _).
    exists outs, calls, w'. split_and!; auto.
    simpl. unfold bind. rewrite E. cbn [fst snd]. rewrite L, <- app_assoc. reflexivity.
  - intros req w0 file cuts F J T K.
    destruct cuts as [|c cs]; [discriminate K|].
    destruct (cut_loop_rejects_at env (file_path file) (length (c :: cs)) (c :: cs)
                i cut s e T K B R (batch_start file (c :: cs) w0))
      as (outs1 & outs2 & calls & w2 & L & I1 & I2 & G & Q).
    destruct (cut_video_completes env req w0 file c cs _ _ w2 F J L)
      as (w' & V & _ & G' & _).
    eexists (failures outs1), (failures outs2), calls, _, w'. split_and!.
    + exact V.
    + reflexivity.
    + unfold field, res_json. cbn. destruct (failures outs1); reflexivity.
    + exact I1.
    + exact I2.
    + rewrite G', G. reflexivity.
    + exact Q.
Qed.

Lemma invalid_range_is_recorded_witness :
  process_cut (Demo.env [] None) "uploads/3f2a.mp4" 2 1
    (Demo.cut (VStr "00:00:20") (VStr "00:00:10")) ["cuts/clipa.mp4"] [] Demo.w0
  = (Normal (["cuts/clipa.mp4"],
             [{| index := 1; error := "Invalid time range: 00:00:20 to 00:00:10" |}]),
     Demo.w0).
Proof.
  exact (proj1 (invalid_range_is_recorded (Demo.env [] None) "uploads/3f2a.mp4" 2 1
                  (Demo.cut (VStr "00:00:20") (VStr "00:00:10")) []
                  ["cuts/clipa.mp4"] [] Demo.w0 20%float 10%float
                  eq_refl eq_refl)).
Defined.

(** The batch goes on after a rejected cut: here the first of three cuts
    fails the range check, and the two after it are invoked and returned. *)
Example rejected_cut_does_not_stop_the_batch :
  cut_loop (Demo.env [] None) "uploads/3f2a.mp4" 3 0
    [Demo.cut (VNum 4) (VNum 1); Demo.cut (VStr "0:30") (VStr "1:00");
     Demo.cut (VStr "abc") (VStr "7")] [] [] Demo.w0
  = (Normal (["cuts/clipa.mp4"; "cuts/clipb.mp4"],
             [{| index := 0; error := "Invalid time range: n to n" |}]),
     snd (cut_loop (Demo.env [] None) "uploads/3f2a.mp4" 3 0
            [Demo.cut (VNum 4) (VNum 1); Demo.cut (VStr "0:30") (VStr "1:00");
             Demo.cut (VStr "abc") (VStr "7")] [] [] Demo.w0))
  /\ map call_range
       (engine_log
          (snd (cut_loop (Demo.env [] None) "uploads/3f2a.mp4" 3 0
                  [Demo.cut (VNum 4) (VNum 1); Demo.cut (VStr "0:30") (VStr "1:00");
                   Demo.cut (VStr "abc") (VStr "7")] [] [] Demo.w0)))
     = [(30, 30); (0, 7)]%float.
Proof. split; vm_compute; reflexivity. Qed.

(** C1: in a batch of cut requests (each with a number or a string for
    [start] and for [end]) every cut leaves exactly one outcome, in its own
    position: an output path in the response's [cuts], or an entry of
    [errors] carrying its index. Successes and failures add up to the
    number of cuts, and the transcoder is invoked for every cut that
    passes the range check, in order, whatever happened to earlier cuts. *)
Theorem every_cut_has_one_outcome env req w file cuts :
  req_file req = Some file ->
  JSON_parse env (cuts_text req) = Some (VArr cuts) ->
  cuts <> [] ->
  Forall (fun c => cut_request c = true) cuts ->
  exists outs calls resp w',
    cut_video env req w = (Normal resp, w')
    /\ status resp = 200
    /\ field "cuts" resp = VArr (map VStr (successes outs))
    /\ field "errors" resp = match failures outs with
                             | [] => VUndefined
                             | es => VArr (map error_obj es)
                             end
    /\ length outs = length cuts
    /\ (forall k cut, cuts !! k = Some cut ->
          exists o, outs !! k = Some o /\ outcome_of k cut o)
    /\ length (successes outs) + length (failures outs) = length cuts
    /\ engine_log w' = engine_log w ++ calls
    /\ map call_range calls = omap requested cuts.
Proof.
  intros F J N T. destruct cuts as [|c cs]; [congruence|].
  destruct (cut_loop_outcomes env (file_path file) (length (c :: cs)) (c :: cs) T
              0 [] [] (batch_start file (c :: cs) w))
    as (outs & calls & w2 & L & Len & P & G & Q & _).
  rewrite !app_nil_l in L.
  destruct (cut_video_completes env req w file c cs _ _ w2 F J L)
    as (w' & E & _ & G' & _).
  eexists outs, calls, _, w'. split_and!.
  - exact E.
  - reflexivity.
  - unfold field, res_json. cbn. destruct (failures outs); reflexivity.
  - unfold field, res_json. cbn. destruct (failures outs); reflexivity.
  - exact Len.
  - exact P.
  - rewrite outcomes_count. exact Len.
  - rewrite G', G. reflexivity.
  - exact Q.
Qed.

Lemma every_cut_has_one_outcome_witness :
  exists outs calls resp w',
    cut_video (Demo.env [0] None) (Demo.request Demo.text_three) Demo.w0
    = (Normal resp, w')
    /\ status resp = 200
    /\ field "cuts" resp = VArr (map VStr (successes outs))
    /\ field "errors" resp = match failures outs with
                             | [] => VUndefined
                             | es => VArr (map error_obj es)
                             end
    /\ length outs = 3
    /\ (forall k cut,
          [Demo.cut (VNum 1) (VNum 4); Demo.cut (VStr "0:30") (VStr "1:00");
           Demo.cut (VStr "abc") (VStr "7")] !! k = Some cut ->
          exists o, outs !! k = Some o /\ outcome_of k cut o)
    /\ length (successes outs) + length (failures outs) = 3
    /\ engine_log w' = [] ++ calls
    /\ map call_range calls = [(1, 3); (30, 30); (0, 7)]%float.
Proof.
  apply (every_cut_has_one_outcome (Demo.env [0] None)
           (Demo.request Demo.text_three) Demo.w0 Demo.upload
           [Demo.cut (VNum 1) (VNum 4); Demo.cut (VStr "0:30") (VStr "1:00");
            Demo.cut (VStr "abc") (VStr "7")]).
  - reflexivity.
  - reflexivity.
  - discriminate.
  - repeat constructor.
Defined.

(** C2: when the loop has run to its end, the response is a 200 whose
    [success] is true exactly when [results] holds at least one output
    path, however many entries [errors] holds. *)
Theorem success_iff_some_result env req w file c cs results errors w2 :
  req_file req = Some file ->
  JSON_parse env (cuts_text req) = Some (VArr (c :: cs)) ->
  cut_loop env (file_path file) (length (c :: cs)) 0 (c :: cs) [] []
    (batch_start file (c :: cs) w) = (Normal (results, errors), w2) ->
  exists resp w' b,
    cut_video env req w = (Normal resp, w')
    /\ status resp = 200
    /\ field "cuts" resp = VArr (map VStr results)
    /\ field "success" resp = VBool b
    /\ (b = true <-> results <> []).
Proof.
  intros F J L.
  destruct (cut_video_completes env req w file c cs results errors w2 F J L)
    as (w' & E & _).
  eexists _, w', (0 <? length results). split_and!.
  - exact E.
  - reflexivity.
  - unfold field, res_json. cbn. destruct errors; reflexivity.
  - unfold field, res_json. cbn. destruct errors; reflexivity.
  - destruct results; simpl; split; intros H;
      first [reflexivity | discriminate | (exfalso; apply H; reflexivity)].
Qed.

Lemma success_iff_some_result_witness :
  exists resp w' b,
    cut_video (Demo.env [] None) (Demo.request Demo.text_two) Demo.w0
    = (Normal resp, w')
    /\ status resp = 200
    /\ field "cuts" resp = VArr (map VStr ["cuts/clipa.mp4"])
    /\ field "success" resp = VBool b
    /\ (b = true <-> ["cuts/clipa.mp4"] <> []).
Proof.
  refine (success_iff_some_result (Demo.env [] None) (Demo.request Demo.text_two)
            Demo.w0 Demo.upload _ _ ["cuts/clipa.mp4"]
            [{| index := 1; error := "Invalid time range: 00:00:20 to 00:00:10" |}]
            _ eq_refl eq_refl _).
  vm_compute. reflexivity.
Defined.

(** * The claims about requests that are turned away *)

(** C7: a request without a stored file, or whose [cuts] text does not
    parse, parses to something other than an array, or parses to the
    empty array, is answered 400 with [success: false]; the transcoder is
    not invoked, no output name is drawn and the disk is untouched. *)
Theorem invalid_request_is_400 env req w :
  req_file req = None
  \/ JSON_parse env (cuts_text req) = None
  \/ (exists v, JSON_parse env (cuts_text req) = Some v /\ is_array v = false)
  \/ JSON_parse env (cuts_text req) = Some (VArr []) ->
  exists resp w',
    cut_video env req w = (Normal resp, w')
    /\ status resp = 400
    /\ field "success" resp = VBool false
    /\ engine_log w' = engine_log w
    /\ uuid_drawn w' = uuid_drawn w
    /\ disk w' = disk w.
Proof.
  intros H.
  destruct (cut_video_rejects env req w) as (msg & E).
  { destruct H as [H|[H|[(v & H & A)|H]]]; [left; exact H|right..];
      intros c cs; rewrite H; try discriminate.
    intros [= ->]. discriminate A. }
  eexists _, _. split; [exact E|]. split_and!; reflexivity.
Qed.

Lemma invalid_request_is_400_witness :
  exists resp w',
    cut_video (Demo.env [] None) (Demo.request "{bad") Demo.w0 = (Normal resp, w')
    /\ status resp = 400
    /\ field "success" resp = VBool false
    /\ engine_log w' = []
    /\ uuid_drawn w' = 0
    /\ disk w' = disk Demo.w0.
Proof.
  apply (invalid_request_is_400 (Demo.env [] None) (Demo.request "{bad") Demo.w0).
  right; left. reflexivity.
Defined.

(** C10: when a file was stored and the request is turned away with 400
    for its [cuts] (unparsable, not an array, or empty), the handler does
    not call [unlinkSync] and leaves the disk as it was: the upload is
    still there. *)
Theorem rejected_upload_stays_on_disk env req w file :
  req_file req = Some file ->
  JSON_parse env (cuts_text req) = None
  \/ (exists v, JSON_parse env (cuts_text req) = Some v /\ is_array v = false)
  \/ JSON_parse env (cuts_text req) = Some (VArr []) ->
  exists resp w',
    cut_video env req w = (Normal resp, w')
    /\ status resp = 400
    /\ unlink_log w' = unlink_log w
    /\ disk w' = disk w
    /\ (file_path file ∈ disk w -> file_path file ∈ disk w').
Proof.
  intros F H.
  destruct (cut_video_rejects env req w) as (msg & E).
  { right. destruct H as [H|[(v & H & A)|H]];
      intros c cs; rewrite H; try discriminate.
    intros [= ->]. discriminate A. }
  eexists _, _. split; [exact E|]. split_and!; try reflexivity. auto.
Qed.

Lemma rejected_upload_stays_on_disk_witness :
  exists resp w',
    cut_video (Demo.env [] None) (Demo.request "[]") Demo.w0 = (Normal resp, w')
    /\ status resp = 400
    /\ unlink_log w' = []
    /\ disk w' = disk Demo.w0
    /\ ("uploads/3f2a.mp4" ∈ disk Demo.w0 -> "uploads/3f2a.mp4" ∈ disk w').
Proof.
  apply (rejected_upload_stays_on_disk (Demo.env [] None) (Demo.request "[]")
           Demo.w0 Demo.upload).
  - reflexivity.
  - right; right. reflexivity.
Defined.

(** * The health check *)

(** C8, as stated, fails: the body of the health response has no property
    named [ffmpegPath]. *)
Lemma health_has_no_ffmpegPath :
  field "ffmpegPath" (health (Demo.env [] None)) = VUndefined
  /\ field "ffmpeg" (health (Demo.env [] None))
     = VStr "/app/node_modules/ffmpeg-static/ffmpeg".
Proof. split; reflexivity. Qed.

(** C8, amended: [GET /health] answers 200 with a body of two properties,
    [status] equal to ["ok"] and [ffmpeg], a string holding the path of
    the transcoder binary. *)
Theorem health_response (env : Env) :
  status (health env) = 200
  /\ body (health env)
     = VObj [("status", VStr "ok"); ("ffmpeg", VStr (ffmpegPath env))]
  /\ field "status" (health env) = VStr "ok"
  /\ field "ffmpeg" (health env) = VStr (ffmpegPath env).
Proof. repeat split. Qed.

(** * The claims about cleanup *)

Lemma unlink_failure_none env p w w2 :
  unlink_log w2 = unlink_log w ->
  disk w ⊆ disk w2 ->
  p ∈ disk w ->
  unlink_fault env (length (unlink_log w)) p = None ->
  unlink_failure env p w2 = None.
Proof.
  intros U D I N. unfold unlink_failure. rewrite U, N.
  destruct (decide (p ∈ disk w2)); [reflexivity|set_solver].
Qed.

Lemma unlink_failure_fault env p w w2 msg :
  unlink_log w2 = unlink_log w ->
  unlink_fault env (length (unlink_log w)) p = Some msg ->
  unlink_failure env p w2 = Some msg.
Proof. intros U N. unfold unlink_failure. now rewrite U, N. Qed.

(** C6, as stated, fails on the abort path: here the batch is aborted by
    its second element, [unlinkSync] is refused, the upload stays on disk,
    and the console holds no warning about it. *)
Lemma cleanup_failure_unlogged_on_abort :
  let r := cut_video (Demo.env [] (Some "EPERM"))
             (Demo.request Demo.text_untyped) Demo.w0 in
  (exists resp, fst r = Normal resp /\ status resp = 500)
  /\ unlink_log (snd r) = ["uploads/3f2a.mp4"]
  /\ "uploads/3f2a.mp4" ∈ disk (snd r)
  /\ cleanup_logged (snd r) = false.
Proof.
  split_and!.
  - eexists. split; [vm_compute; reflexivity|reflexivity].
  - vm_compute. reflexivity.
  - refine (bool_decide_unpack _ _). vm_compute. exact I.
  - vm_compute. reflexivity.
Qed.

(** What the console gains once the loop has run to its end: the warning,
    if [unlinkSync] failed in any way, and the closing line. *)
Lemma cut_video_completes_console env req w file c cs results errors w2 :
  req_file req = Some file ->
  JSON_parse env (cuts_text req) = Some (VArr (c :: cs)) ->
  cut_loop env (file_path file) (length (c :: cs)) 0 (c :: cs) [] []
    (batch_start file (c :: cs) w) = (Normal (results, errors), w2) ->
  console (snd (cut_video env req w))
  = console w2
    ++ match unlink_failure env (file_path file) w2 with
       | Some msg => [LogCleanupFailed msg]
       | None => []
       end
    ++ [LogCompleted (processing_time env w w2) (length results) (length errors)].
Proof.
  intros F J L. unfold batch_start in L.
  unfold cut_video, bind, read_clock, try_catch. rewrite F, J.
  unfold console_log at 1.
  cbn [disk engine_log unlink_log console uuid_drawn clock_reads].
  rewrite L. cbn [fst snd].
  destruct (unlinkSync_run env (file_path file) w2) as (w3 & -> & U & G & C & K & D).
  unfold processing_time. rewrite <- K, <- C.
  destruct (unlink_failure env (file_path file) w2) as [msg|];
    unfold console_log, ret; cbn; [rewrite <- app_assoc|]; reflexivity.
Qed.

(** C6, amended: whenever the batch runs, with the upload stored under a
    non-empty path, [unlinkSync] is called on that path exactly once, in
    the world the loop has left, and the file is gone unless the call
    fails; the response is made from the loop's result and the clock
    alone, so it is the same whether the call succeeds, is refused by the
    system or finds no file. A failure of either kind is logged as a
    warning, right after the loop's own lines, when the loop ran to its
    end (200); when the loop was aborted (500) the console gains the
    server error and nothing else. *)
Theorem upload_unlinked_once env req w file c cs :
  req_file req = Some file ->
  JSON_parse env (cuts_text req) = Some (VArr (c :: cs)) ->
  non_empty (file_path file) = true ->
  exists resp r w2 w',
    cut_video env req w = (Normal resp, w')
    /\ cut_loop env (file_path file) (length (c :: cs)) 0 (c :: cs) [] []
         (batch_start file (c :: cs) w) = (r, w2)
    /\ unlink_log w2 = unlink_log w
    /\ unlink_log w' = unlink_log w ++ [file_path file]
    /\ engine_log w' = engine_log w2
    /\ unlink_log w' = unlink_log (snd (unlinkSync env (file_path file) w2))
    /\ disk w' = disk (snd (unlinkSync env (file_path file) w2))
    /\ (unlink_failure env (file_path file) w2 = None -> file_path file ∉ disk w')
    /\ (file_path file ∈ disk w ->
        unlink_fault env (length (unlink_log w)) (file_path file) = None ->
        file_path file ∉ disk w')
    /\ resp = response_of env w w2 r
    /\ (forall f, fst (cut_video (with_unlink_fault f env) req w) = Normal resp)
    /\ ((status resp = 200
         /\ (is_Some (unlink_failure env (file_path file) w2) ->
             cleanup_logged w' = true)
         /\ exists duration nresults nerrors,
              console w'
              = console w2
                ++ match unlink_failure env (file_path file) w2 with
                   | Some msg => [LogCleanupFailed msg]
                   | None => []
                   end
                ++ [LogCompleted duration nresults nerrors])
        \/ (status resp = 500
            /\ exists err, console w' = console w2 ++ [LogServerError err])).
Proof.
  intros F J N.
  pose proof (cut_loop_frame env (file_path file) (length (c :: cs)) (c :: cs)
                0 [] [] (batch_start file (c :: cs) w)) as [U D].
  destruct (unlinkSync_run env (file_path file)
              (snd (cut_loop env (file_path file) (length (c :: cs)) 0 (c :: cs) [] []
                      (batch_start file (c :: cs) w))))
    as (wu & Eu & Uu & _ & _ & _ & Du).
  destruct (cut_loop env (file_path file) (length (c :: cs)) 0 (c :: cs) [] []
              (batch_start file (c :: cs) w)) as [[[results errors]|err] w2] eqn:L;
    cbn [snd] in U, D, Eu, Uu, Du;
    change (unlink_log (batch_start file (c :: cs) w)) with (unlink_log w) in U;
    change (disk (batch_start file (c :: cs) w)) with (disk w) in D.
  - pose proof (cut_video_completes_console env req w file c cs results errors w2 F J L)
      as Co.
    destruct (cut_video_completes env req w file c cs results errors w2 F J L)
      as (w' & E & U' & G & K & W).
    rewrite E in Co. cbn [snd] in Co.
    eexists _, _, w2, w'. split_and!.
    + exact E.
    + reflexivity.
    + exact U.
    + now rewrite U', U.
    + exact G.
    + rewrite Eu. cbn [snd]. now rewrite U', Uu.
    + rewrite Eu. cbn [snd]. now rewrite K, Du.
    + intros Z. rewrite K, Z. set_solver.
    + intros I Z. rewrite K, (unlink_failure_none env _ w w2 U D I Z). set_solver.
    + reflexivity.
    + intros f. rewrite response_ignores_unlink, E. reflexivity.
    + left. split_and!; [reflexivity|exact W|eauto].
  - destruct (cut_video_aborts env req w file c cs err w2 F J L N)
      as (w' & E & U' & G & C & K).
    eexists _, _, w2, w'. split_and!.
    + exact E.
    + reflexivity.
    + exact U.
    + now rewrite U', U.
    + exact G.
    + rewrite Eu. cbn [snd]. now rewrite U', Uu.
    + rewrite Eu. cbn [snd]. now rewrite K, Du.
    + intros Z. rewrite K, Z. set_solver.
    + intros I Z. rewrite K, (unlink_failure_none env _ w w2 U D I Z). set_solver.
    + reflexivity.
    + intros f. rewrite response_ignores_unlink, E. reflexivity.
    + right. split; [reflexivity|]. eauto.
Qed.

(** The witness runs a batch whose upload is no longer on disk when the
    loop is over: [unlinkSync] fails with ENOENT, and the warning is
    logged. *)
Lemma upload_unlinked_once_witness :
  let gone := {| disk := ∅; engine_log := []; unlink_log := []; console := [];
                 uuid_drawn := 0; clock_reads := 0 |} in
  exists resp w',
    cut_video (Demo.env [] None) (Demo.request Demo.text_two) gone = (Normal resp, w')
    /\ status resp = 200
    /\ unlink_log w' = ["uploads/3f2a.mp4"]
    /\ cleanup_logged w' = true.
Proof.
  intros gone.
  destruct (upload_unlinked_once (Demo.env [] None) (Demo.request Demo.text_two)
              gone Demo.upload
              (Demo.cut (VStr "00:00:05") (VStr "00:00:12"))
              [Demo.cut (VStr "00:00:20") (VStr "00:00:10")]
              eq_refl eq_refl eq_refl)
    as (resp & r & w2 & w' & E & L & _ & U & _ & _ & _ & _ & _ & R & _ & H).
  exists resp, w'. split; [exact E|].
  assert (L' : (r, w2)
               = cut_loop (Demo.env [] None) "uploads/3f2a.mp4" 2 0
                   [Demo.cut (VStr "00:00:05") (VStr "00:00:12");
                    Demo.cut (VStr "00:00:20") (VStr "00:00:10")] [] []
                   (batch_start Demo.upload
                      [Demo.cut (VStr "00:00:05") (VStr "00:00:12");
                       Demo.cut (VStr "00:00:20") (VStr "00:00:10")] gone))
    by (symmetry; exact L).
  vm_compute in L'. injection L' as -> ->.
  rewrite R. split; [reflexivity|]. split; [exact U|].
  destruct H as [(_ & W & _)|(S & _)].
  - apply W. vm_compute. eauto.
  - rewrite R in S. discriminate S.
Defined.

(** * The claim about untyped cuts *)

(** On an object, the exception of normalization is the one
    [timestampToSeconds] throws on its [start] or on its [end]. *)
Lemma bounds_object_throw props err :
  bounds (VObj props) = Throw err ->
  exists v, (v = assoc "start" props \/ v = assoc "end" props)
            /\ timespec v = false
            /\ timestampToSeconds v = Throw err.
Proof.
  unfold bounds. simpl.
  destruct (timestampToSeconds (assoc "start" props)) as [s|e1] eqn:S.
  - destruct (timestampToSeconds (assoc "end" props)) as [e|e2] eqn:E;
      [discriminate|].
    intros [= <-]. exists (assoc "end" props). split_and!; auto.
    destruct (assoc "end" props); try reflexivity; try discriminate E.
    destruct (timestampToSeconds_string_normal s0) as [x X]. congruence.
  - intros [= <-]. exists (assoc "start" props). split_and!; auto.
    destruct (assoc "start" props); try reflexivity; try discriminate S.
    destruct (timestampToSeconds_string_normal s) as [x X]. congruence.
Qed.

(** C9: when the batch holds an element whose [start] or [end] is neither
    a number nor a string, normalization of the first such element throws
    a [TypeError] (from [timestampToSeconds] when the element is an
    object); the request is answered 500 with [success: false] and the
    error's message, with no [cuts] and no [errors] in the body, whatever
    the earlier cuts produced; and [unlinkSync] is still called once on
    the upload, which is gone afterwards unless the call fails. *)
Theorem untyped_cut_aborts_batch env req w file cuts :
  req_file req = Some file ->
  JSON_parse env (cuts_text req) = Some (VArr cuts) ->
  Exists (fun c => cut_request c = false) cuts ->
  non_empty (file_path file) = true ->
  exists k cut err resp w',
    cuts !! k = Some cut
    /\ cut_request cut = false
    /\ Forall (fun c => cut_request c = true) (take k cuts)
    /\ bounds cut = Throw err
    /\ err_name err = "TypeError"
    /\ (forall props, cut = VObj props ->
          exists v, (v = assoc "start" props \/ v = assoc "end" props)
                    /\ timespec v = false
                    /\ timestampToSeconds v = Throw err)
    /\ cut_video env req w = (Normal resp, w')
    /\ resp = res_json 500 [("success", VBool false); ("error", VStr (message err))]
    /\ field "cuts" resp = VUndefined
    /\ field "errors" resp = VUndefined
    /\ unlink_log w' = unlink_log w ++ [file_path file]
    /\ (file_path file ∈ disk w ->
        unlink_fault env (length (unlink_log w)) (file_path file) = None ->
        file_path file ∉ disk w').
Proof.
  intros F J X N. destruct cuts as [|c cs]; [inversion X|].
  destruct (cut_loop_aborts env (file_path file) (length (c :: cs)) (c :: cs) X
              0 [] [] (batch_start file (c :: cs) w))
    as (k & cut & err & w2 & L & K & C & T & B & Y & M).
  pose proof (cut_loop_frame env (file_path file) (length (c :: cs)) (c :: cs)
                0 [] [] (batch_start file (c :: cs) w)) as [U D].
  rewrite L in U, D. cbn [snd] in U, D.
  change (unlink_log (batch_start file (c :: cs) w)) with (unlink_log w) in U.
  change (disk (batch_start file (c :: cs) w)) with (disk w) in D.
  destruct (cut_video_aborts env req w file c cs err w2 F J L N)
    as (w' & E & U' & G & Co & Di).
  rewrite M in E.
  eexists k, cut, err, _, w'. split_and!; try eassumption; try reflexivity.
  - intros props ->. now apply bounds_object_throw.
  - now rewrite U', U.
  - intros I Z. rewrite Di, (unlink_failure_none env _ w w2 U D I Z). set_solver.
Qed.

Lemma untyped_cut_aborts_batch_witness :
  exists k cut err resp w',
    [Demo.cut (VNum 0) (VNum 2); VObj []] !! k = Some cut
    /\ cut_request cut = false
    /\ Forall (fun c => cut_request c = true)
         (take k [Demo.cut (VNum 0) (VNum 2); VObj []])
    /\ bounds cut = Throw err
    /\ err_name err = "TypeError"
    /\ (forall props, cut = VObj props ->
          exists v, (v = assoc "start" props \/ v = assoc "end" props)
                    /\ timespec v = false
                    /\ timestampToSeconds v = Throw err)
    /\ cut_video (Demo.env [] None) (Demo.request Demo.text_untyped) Demo.w0
       = (Normal resp, w')
    /\ resp = res_json 500 [("success", VBool false); ("error", VStr (message err))]
    /\ field "cuts" resp = VUndefined
    /\ field "errors" resp = VUndefined
    /\ unlink_log w' = [] ++ ["uploads/3f2a.mp4"]
    /\ ("uploads/3f2a.mp4" ∈ disk Demo.w0 ->
        (None : option string) = None -> "uploads/3f2a.mp4" ∉ disk w').
Proof.
  apply (untyped_cut_aborts_batch (Demo.env [] None)
           (Demo.request Demo.text_untyped) Demo.w0 Demo.upload
           [Demo.cut (VNum 0) (VNum 2); VObj []]).
  - reflexivity.
  - reflexivity.
  - apply Exists_cons_tl, Exists_cons_hd. reflexivity.
  - reflexivity.
Defined.

(** The aborted batch had already produced a clip: the transcoder was
    invoked for the first cut and its output is on disk, yet the response
    does not mention it. *)
Example aborted_batch_discards_clip :
  let r := cut_video (Demo.env [] None) (Demo.request Demo.text_untyped) Demo.w0 in
  length (engine_log (snd r)) = 1
  /\ "/app/cuts/clipa.mp4" ∈ disk (snd r)
  /\ ("uploads/3f2a.mp4" ∉ disk (snd r))
  /\ fst r = Normal (res_json 500
                       [("success", VBool false);
                        ("error",
                         VStr "Cannot read properties of undefined (reading 'split')")]).
Proof.
  split_and!.
  - vm_compute. reflexivity.
  - refine (bool_decide_unpack _ _). vm_compute. exact I.
  - refine (bool_decide_unpack _ _). vm_compute. exact I.
  - vm_compute. reflexivity.
Qed.

(** * Scenarios *)

(** Two cuts, the second with its end before its start: one clip, one
    failure at index 1, and [success: true]. *)
Example scenario_one_clip_one_range_error :
  fst (cut_video (Demo.env [] None) (Demo.request Demo.text_two) Demo.w0)
  = Normal
      {| status := 200;
         body := VObj
           [("success", VBool true);
            ("cuts", VArr [VStr "cuts/clipa.mp4"]);
            ("errors",
             VArr [VObj [("index", VNum 1);
                         ("error", VStr "Invalid time range: 00:00:20 to 00:00:10")]]);
            ("processingTime", VStr "1.00s")] |}.
Proof. vm_compute. reflexivity. Qed.

(** A failing transcoder does not stop the batch: the first invocation
    fails, the two after it are still made. *)
Example scenario_engine_failure_is_isolated :
  let r := cut_video (Demo.env [0] None) (Demo.request Demo.text_three) Demo.w0 in
  map call_range (engine_log (snd r)) = [(1, 3); (30, 30); (0, 7)]%float
  /\ exists resp,
       fst r = Normal resp
       /\ field "cuts" resp = VArr [VStr "cuts/clipb.mp4"; VStr "cuts/clipc.mp4"]
       /\ field "errors" resp
          = VArr [VObj [("index", VNum 0); ("error", VStr "ffmpeg exited with code 1")]].
Proof.
  split; [vm_compute; reflexivity|].
  eexists. split; [vm_compute; reflexivity|]. split; reflexivity.
Qed.

(** A request without a [cuts] field is read as the empty array. *)
Example scenario_absent_cuts :
  fst (cut_video (Demo.env [] None)
         {| req_file := Some Demo.upload; body_cuts := None |} Demo.w0)
  = Normal (res_json 400
              [("success", VBool false);
               ("error",
                VStr "No cuts provided. Send an array of { start, end } objects.")]).
Proof. vm_compute. reflexivity. Qed.

(** * Further properties of the module *)

(** ** [split] and [join] *)

Lemma is_colon (c : ascii) : is_char c 58 = true -> c = ":"%char.
Proof.
  destruct c as [[] [] [] [] [] [] [] []]; vm_compute; intros H;
    first [reflexivity | discriminate H].
Qed.

Lemma join_colon_cons (c : ascii) (p : string) (ps : list string) :
  join_colon (String c p :: ps) = String c (join_colon (p :: ps)).
Proof. destruct ps; reflexivity. Qed.

Lemma join_split (s : string) : join_colon (split_colon s) = s.
Proof.
  induction s as [|c r IH]; [reflexivity|]. simpl.
  destruct (is_char c 58) eqn:C.
  - apply is_colon in C as ->.
    pose proof (split_colon_nonempty r) as N.
    destruct (split_colon r) as [|p ps]; [congruence|].
    change (join_colon ("" :: p :: ps)) with (":" +:+ join_colon (p :: ps)).
    now rewrite IH.
  - pose proof (split_colon_nonempty r) as N.
    destruct (split_colon r) as [|p ps]; [congruence|].
    now rewrite join_colon_cons, IH.
Qed.

Lemma split_parts_colon_free (s : string) :
  Forall (fun p => colons p = 0) (split_colon s).
Proof.
  induction s as [|c r IH]; simpl; [repeat constructor|].
  destruct (is_char c 58) eqn:C; [constructor; [reflexivity|exact IH]|].
  destruct (split_colon r) as [|p ps]; [repeat constructor; simpl; now rewrite C|].
  inversion IH as [|? ? Hp Hps]; subst. constructor; [|exact Hps].
  simpl. now rewrite C, Hp.
Qed.

Lemma split_join (parts : list string) :
  parts <> [] ->
  Forall (fun p => colons p = 0) parts ->
  split_colon (join_colon parts) = parts.
Proof.
  induction parts as [|p rest IH]; [congruence|]. intros _ F.
  inversion F as [|? ? Hp Hrest]; subst.
  destruct rest as [|q rest'].
  - simpl. now apply split_colon_single.
  - change (join_colon (p :: q :: rest')) with (p +:+ ":" +:+ join_colon (q :: rest')).
    rewrite (split_colon_app p _ Hp). f_equal. apply IH; [discriminate|exact Hrest].
Qed.

(** X1: [split(':')] loses nothing and leaves no colon behind: joining
    the parts with colons gives the string back, every part is free of
    colons, and there is one part more than there are colons; conversely,
    splitting the join of colon-free parts gives the parts back. *)
Theorem split_join_inverse :
  (forall s : string,
      join_colon (split_colon s) = s
      /\ Forall (fun p => colons p = 0) (split_colon s)
      /\ length (split_colon s) = S (colons s))
  /\ (forall parts : list string,
        parts <> [] ->
        Forall (fun p => colons p = 0) parts ->
        split_colon (join_colon parts) = parts).
Proof.
  split.
  - intros s. split_and!.
    + apply join_split.
    + apply split_parts_colon_free.
    + apply split_colon_length.
  - exact split_join.
Qed.

Lemma split_join_inverse_witness :
  split_colon (join_colon ["01"; ""; "30"]) = ["01"; ""; "30"].
Proof.
  apply (proj2 split_join_inverse ["01"; ""; "30"]).
  - discriminate.
  - repeat constructor.
Defined.

(** ** What [timestampToSeconds] accepts *)

(** X2: [timestampToSeconds] returns exactly on numbers and strings; on
    any other value ([undefined], [null], a boolean, an array, an object)
    it throws a [TypeError]. *)
Theorem timestampToSeconds_accepts (v : jsval) :
  ((exists x, timestampToSeconds v = Normal x) <-> timespec v = true)
  /\ ((exists err, timestampToSeconds v = Throw err /\ err_name err = "TypeError")
      <-> timespec v = false).
Proof.
  destruct (timespec v) eqn:T.
  - assert (N : exists x, timestampToSeconds v = Normal x).
    { destruct v; try discriminate T; [eauto|apply timestampToSeconds_string_normal]. }
    split; split; auto; try discriminate.
    intros (err & E & _). destruct N as [x N]. congruence.
  - destruct (timestampToSeconds_throws v T) as (err & E & Y & _).
    split; split; eauto; try discriminate.
    intros [x N]. congruence.
Qed.

(** ** [NaN] and the range check *)

Section FloatNaN.

Local Open Scope float_scope.

Lemma SFcompare_refl (x : spec_float) :
  x <> S754_nan -> SFcompare x x = Some Eq.
Proof.
  destruct x as [[]|[]| |[] m e]; try reflexivity; try congruence; intros _; simpl;
    rewrite Z.compare_refl, Pos.compare_cont_refl; reflexivity.
Qed.

Lemma is_nan_Prim2SF (x : number) :
  PrimFloat.is_nan x = true <-> Prim2SF x = S754_nan.
Proof.
  unfold PrimFloat.is_nan. rewrite FloatAxioms.eqb_spec. unfold SFeqb. split.
  - intros H. destruct (Prim2SF x) eqn:E; try reflexivity;
      rewrite SFcompare_refl in H by discriminate; discriminate H.
  - intros ->. reflexivity.
Qed.

(** Comparing with [NaN] is false on either side. *)
Lemma leb_nan (x y : number) :
  PrimFloat.is_nan x = true \/ PrimFloat.is_nan y = true -> (x <=? y) = false.
Proof.
  rewrite !is_nan_Prim2SF, leb_spec. intros [H|H]; rewrite H.
  - reflexivity.
  - unfold SFleb. destruct (Prim2SF x); reflexivity.
Qed.

(** A difference with [NaN] is [NaN]. *)
Lemma sub_nan (x y : number) :
  PrimFloat.is_nan x = true \/ PrimFloat.is_nan y = true ->
  PrimFloat.is_nan (x - y) = true.
Proof.
  rewrite !is_nan_Prim2SF, sub_spec. intros [H|H]; rewrite H.
  - reflexivity.
  - destruct (Prim2SF x); reflexivity.
Qed.

End FloatNaN.

(** ** One pass, in full *)

(** What a pass does for a cut that passes the range check: it draws one
    identifier, makes one invocation, and either pushes the clip onto
    [results] and leaves its file on disk, or pushes the transcoder's
    message onto [errors]. *)
Lemma process_cut_invokes_exact env inputPath total i cut results errors w s e :
  bounds cut = Normal (s, e) ->
  PrimFloat.leb e s = false ->
  exists w',
    process_cut env inputPath total i cut results errors w
    = (match run_error (ffmpeg_run env (length (engine_log w))
                          (the_call env inputPath (uuid_drawn w) s e)) with
       | None => Normal (results ++ [clip_url env (uuid_drawn w)], errors)
       | Some msg => Normal (results, errors ++ [{| index := i; error := msg |}])
       end, w')
    /\ engine_log w' = engine_log w ++ [the_call env inputPath (uuid_drawn w) s e]
    /\ uuid_drawn w' = S (uuid_drawn w)
    /\ unlink_log w' = unlink_log w
    /\ clock_reads w' = clock_reads w
    /\ disk w' = match run_error (ffmpeg_run env (length (engine_log w))
                                    (the_call env inputPath (uuid_drawn w) s e)) with
                 | None => disk w ∪ {[clip_path env (uuid_drawn w)]}
                 | Some _ => disk w
                 end.
Proof.
  unfold bounds, process_cut, bind, lift.
  destruct (get_prop cut "start") as [a|]; [|congruence].
  destruct (timestampToSeconds a); [|congruence].
  destruct (get_prop cut "end") as [b|]; [|congruence].
  destruct (timestampToSeconds b); [|congruence].
  intros [= -> ->] R. rewrite R.
  unfold draw_uuid, try_catch, cutVideoSegment, bind, console_log, ret.
  cbn [disk engine_log unlink_log console uuid_drawn clock_reads].
  fold (clip_name env (uuid_drawn w)). fold (clip_path env (uuid_drawn w)).
  fold (clip_url env (uuid_drawn w)).
  fold (the_call env inputPath (uuid_drawn w) s e).
  destruct (run_error _) as [msg|]; eexists; split_and!; reflexivity.
Qed.

(** X3: a bound that is [NaN] (as a colon form with a non-numeric
    component gives) is not caught by the range check: the pass invokes
    the transcoder, with a [NaN] duration. *)
Theorem nan_bound_reaches_transcoder
    env inputPath total i cut results errors w s e :
  bounds cut = Normal (s, e) ->
  PrimFloat.is_nan s = true \/ PrimFloat.is_nan e = true ->
  exists arrays w',
    process_cut env inputPath total i cut results errors w = (Normal arrays, w')
    /\ engine_log w' = engine_log w ++ [the_call env inputPath (uuid_drawn w) s e]
    /\ PrimFloat.is_nan (call_duration (the_call env inputPath (uuid_drawn w) s e))
       = true.
Proof.
  intros B N.
  assert (R : PrimFloat.leb e s = false) by (apply leb_nan; tauto).
  destruct (process_cut_invokes_exact env inputPath total i cut results errors w s e B R)
    as (w' & E & G & _).
  rewrite E. destruct (run_error _); eexists _, w'; (split_and!; [reflexivity|exact G|]);
    apply sub_nan; tauto.
Qed.

Lemma nan_bound_reaches_transcoder_witness :
  exists arrays w',
    process_cut (Demo.env [] None) "uploads/3f2a.mp4" 1 0
      (Demo.cut (VStr "a:b") (VStr "10")) [] [] Demo.w0 = (Normal arrays, w')
    /\ engine_log w'
       = [] ++ [the_call (Demo.env [] None) "uploads/3f2a.mp4" 0 NaN 10%float]
    /\ PrimFloat.is_nan
         (call_duration (the_call (Demo.env [] None) "uploads/3f2a.mp4" 0 NaN 10%float))
       = true.
Proof.
  apply (nan_bound_reaches_transcoder (Demo.env [] None) "uploads/3f2a.mp4" 1 0
           (Demo.cut (VStr "a:b") (VStr "10")) [] [] Demo.w0 NaN 10%float).
  - reflexivity.
  - left. reflexivity.
Defined.

(** ** The loop, in full *)

(** Where the loop has been, however it ended: the invocations it made,
    one identifier drawn for each, and on disk the clips the transcoder
    completed; if it ran to its end, [results] has gained those clips. *)
Lemma cut_loop_trace env inputPath total cuts :
  forall i results errors w c w',
    cut_loop env inputPath total i cuts results errors w = (c, w') ->
    exists calls,
      engine_log w' = engine_log w ++ calls
      /\ uuid_drawn w' = uuid_drawn w + length calls
      /\ length calls <= length cuts
      /\ (forall j call, calls !! j = Some call ->
            exists s e, call = the_call env inputPath (uuid_drawn w + j) s e)
      /\ disk w' = disk w
                   ∪ list_to_set (map (clip_path env)
                       (produced env (uuid_drawn w) (length (engine_log w)) calls))
      /\ clock_reads w' = clock_reads w
      /\ (forall rs es, c = Normal (rs, es) ->
            rs = results
                 ++ map (clip_url env)
                      (produced env (uuid_drawn w) (length (engine_log w)) calls)).
Proof.
  induction cuts as [|cut rest IH]; intros i results errors w c w' E.
  - simpl in E. injection E as <- <-. exists []. simpl. rewrite !app_nil_r.
    split_and!; first [reflexivity | lia | set_solver].
  - simpl in E. unfold bind in E.
    destruct (bounds cut) as [[s e]|err] eqn:B.
    + destruct (PrimFloat.leb e s) eqn:R.
      * rewrite (process_cut_rejects _ _ _ _ _ _ _ _ _ _ B R) in E. cbn [fst snd] in E.
        destruct (IH _ _ _ _ _ _ E) as (calls & G & U & L & C & D & K & P).
        exists calls. split_and!; auto. simpl. lia.
      * destruct (process_cut_invokes_exact env inputPath total i cut results errors
                    w s e B R) as (w1 & E1 & G1 & U1 & _ & K1 & D1).
        rewrite E1 in E.
        assert (G1' : length (engine_log w1) = S (length (engine_log w)))
          by (rewrite G1, length_app; simpl; lia).
        destruct (run_error (ffmpeg_run env (length (engine_log w))
                               (the_call env inputPath (uuid_drawn w) s e)))
          as [msg|] eqn:X; cbn [fst snd] in E;
          destruct (IH _ _ _ _ _ _ E) as (calls & G & U & L & C & D & K & P);
          rewrite U1, G1' in *;
          exists (the_call env inputPath (uuid_drawn w) s e :: calls);
          simpl; rewrite X; split_and!.
        -- rewrite G, G1, <- app_assoc. reflexivity.
        -- lia.
        -- lia.
        -- intros [|j] call H; simpl in H.
           ++ injection H as <-. rewrite Nat.add_0_r. eauto.
           ++ destruct (C j call H) as (s' & e' & ->).
              exists s', e'. f_equal. lia.
        -- rewrite D, D1. reflexivity.
        -- congruence.
        -- exact P.
        -- rewrite G, G1, <- app_assoc. reflexivity.
        -- lia.
        -- lia.
        -- intros [|j] call H; simpl in H.
           ++ injection H as <-. rewrite Nat.add_0_r. eauto.
           ++ destruct (C j call H) as (s' & e' & ->).
              exists s', e'. f_equal. lia.
        -- rewrite D, D1. simpl. set_solver.
        -- congruence.
        -- intros rs es H. rewrite (P rs es H), <- app_assoc. reflexivity.
    + rewrite (process_cut_throws _ _ _ _ _ _ _ _ _ B) in E. injection E as <- <-.
      exists []. simpl. rewrite !app_nil_r.
      split_and!; first [reflexivity | lia | set_solver].
Qed.

(** ** The handler's world *)

Lemma cut_video_aborts_world env req w file c cs err w2 :
  req_file req = Some file ->
  JSON_parse env (cuts_text req) = Some (VArr (c :: cs)) ->
  cut_loop env (file_path file) (length (c :: cs)) 0 (c :: cs) [] []
    (batch_start file (c :: cs) w) = (Throw err, w2) ->
  exists w',
    cut_video env req w
    = (Normal (res_json 500
                 [("success", VBool false);
                  ("error", VStr (if non_empty (message err) then message err
                                  else "Internal server error"))]), w')
    /\ engine_log w' = engine_log w2
    /\ (unlink_log w' = unlink_log w2
        \/ unlink_log w' = unlink_log w2 ++ [file_path file])
    /\ disk w' ⊆ disk w2
    /\ disk w2 ∖ {[file_path file]} ⊆ disk w'.
Proof.
  intros F J L. destruct (non_empty (file_path file)) eqn:N.
  - destruct (cut_video_aborts env req w file c cs err w2 F J L N)
      as (w' & E & U & G & _ & D).
    exists w'. split_and!; auto.
    all: rewrite D; destruct (unlink_failure env (file_path file) w2); set_solver.
  - unfold batch_start in L.
    unfold cut_video, bind, read_clock, try_catch. rewrite F, J.
    unfold console_log at 1.
    cbn [disk engine_log unlink_log console uuid_drawn clock_reads].
    rewrite L, N. unfold console_log, ret. eexists. split; [reflexivity|].
    cbn. split_and!; auto; set_solver.
Qed.

(** Once the batch runs, the handler answers, and adds to what the loop
    did at most one [unlinkSync], of the upload. *)
Lemma cut_video_runs env req w file c cs :
  req_file req = Some file ->
  JSON_parse env (cuts_text req) = Some (VArr (c :: cs)) ->
  exists r w2 resp w',
    cut_loop env (file_path file) (length (c :: cs)) 0 (c :: cs) [] []
      (batch_start file (c :: cs) w) = (r, w2)
    /\ cut_video env req w = (Normal resp, w')
    /\ engine_log w' = engine_log w2
    /\ (unlink_log w' = unlink_log w
        \/ unlink_log w' = unlink_log w ++ [file_path file])
    /\ disk w' ⊆ disk w2
    /\ disk w2 ∖ {[file_path file]} ⊆ disk w'.
Proof.
  intros F J.
  pose proof (cut_loop_frame env (file_path file) (length (c :: cs)) (c :: cs)
                0 [] [] (batch_start file (c :: cs) w)) as [U _].
  destruct (cut_loop env (file_path file) (length (c :: cs)) 0 (c :: cs) [] []
              (batch_start file (c :: cs) w)) as [[[results errors]|err] w2] eqn:L;
    cbn [snd] in U; change (unlink_log (batch_start file (c :: cs) w))
      with (unlink_log w) in U.
  - destruct (cut_video_completes env req w file c cs results errors w2 F J L)
      as (w' & E & U' & G & K & _).
    eexists _, w2, _, w'. split_and!; [reflexivity|exact E|exact G| | |].
    + right. now rewrite U', U.
    + rewrite K. destruct (unlink_failure env (file_path file) w2); set_solver.
    + rewrite K. destruct (unlink_failure env (file_path file) w2); set_solver.
  - destruct (cut_video_aborts_world env req w file c cs err w2 F J L)
      as (w' & E & G & U' & D1 & D2).
    eexists _, w2, _, w'. rewrite <- U.
    split_and!; [reflexivity|exact E|exact G|exact U'|exact D1|exact D2].
Qed.

(** ** Every request is answered *)

Lemma cut_video_rejects_text env req w :
  req_file req = None
  \/ (forall c cs, JSON_parse env (cuts_text req) <> Some (VArr (c :: cs))) ->
  exists msg,
    cut_video env req w
    = (Normal (res_json 400 [("success", VBool false); ("error", VStr msg)]), tick w)
    /\ non_empty msg = true.
Proof.
  intros H. unfold cut_video, bind, read_clock, try_catch, ret. fold (tick w).
  destruct (req_file req) as [file|]; [|eexists; split; reflexivity].
  destruct H as [H|H]; [discriminate H|].
  destruct (JSON_parse env (cuts_text req)) as [v|]; [|eexists; split; reflexivity].
  destruct v as [| | | | |[|c cs]|]; try (eexists; split; reflexivity).
  now destruct (H c cs).
Qed.

Lemma cut_request_dichotomy (cuts : list jsval) :
  Forall (fun c => cut_request c = true) cuts
  \/ Exists (fun c => cut_request c = false) cuts.
Proof.
  induction cuts as [|c cs [IH|IH]].
  - left. constructor.
  - destruct (cut_request c) eqn:C; [left|right]; constructor; assumption.
  - right. now apply Exists_cons_tl.
Qed.

Lemma cut_request_exclusive (cuts : list jsval) :
  Forall (fun c => cut_request c = true) cuts ->
  Exists (fun c => cut_request c = false) cuts -> False.
Proof.
  intros F X. induction X as [c cs H|c cs _ IH]; inversion F; subst; [congruence|auto].
Qed.

(** How a request whose batch runs is answered: 200 when every element is
    a cut request, 500 when some element is not. *)
Lemma cut_video_batch_status env req w file c cs :
  req_file req = Some file ->
  JSON_parse env (cuts_text req) = Some (VArr (c :: cs)) ->
  exists resp w',
    cut_video env req w = (Normal resp, w')
    /\ ((status resp = 200 /\ Forall (fun x => cut_request x = true) (c :: cs)
         /\ field "error" resp = VUndefined)
        \/ (status resp = 500 /\ Exists (fun x => cut_request x = false) (c :: cs)
            /\ field "success" resp = VBool false
            /\ non_empty (error_text resp) = true)).
Proof.
  intros F J. destruct (cut_request_dichotomy (c :: cs)) as [T|X].
  - destruct (cut_loop_outcomes env (file_path file) (length (c :: cs)) (c :: cs) T
                0 [] [] (batch_start file (c :: cs) w)) as (outs & calls & w2 & L & _).
    rewrite !app_nil_l in L.
    destruct (cut_video_completes env req w file c cs _ _ w2 F J L) as (w' & E & _).
    eexists _, w'. split; [exact E|]. left. split_and!; auto.
    unfold field, res_json. cbn. destruct (failures outs); reflexivity.
  - destruct (cut_loop_aborts env (file_path file) (length (c :: cs)) (c :: cs) X
                0 [] [] (batch_start file (c :: cs) w))
      as (k & cut & err & w2 & L & _ & _ & _ & _ & _ & M).
    destruct (cut_video_aborts_world env req w file c cs err w2 F J L) as (w' & E & _).
    eexists _, w'. split; [exact E|]. right. rewrite M. split_and!; auto.
Qed.

(** X4: no exception escapes the handler. Every request is answered, with
    200, 400 or 500; an answer other than 200 carries [success: false] and
    a non-empty [error] text, and a 200 carries no [error]. *)
Theorem handler_always_answers env req w :
  exists resp w',
    cut_video env req w = (Normal resp, w')
    /\ (status resp = 200 \/ status resp = 400 \/ status resp = 500)
    /\ (status resp <> 200 ->
        field "success" resp = VBool false /\ non_empty (error_text resp) = true)
    /\ (status resp = 200 -> field "error" resp = VUndefined).
Proof.
  destruct (req_file req) as [file|] eqn:F.
  - destruct (JSON_parse env (cuts_text req)) as [[| | | | |[|c cs]|]|] eqn:J.
    1-6,8-9: destruct (cut_video_rejects_text env req w) as (msg & E & N);
      [right; intros c cs; rewrite J; discriminate|];
      eexists _, _; (split; [exact E|]); split_and!; auto; discriminate.
    destruct (cut_video_batch_status env req w file c cs F J)
      as (resp & w' & E & [(S & _ & X)|(S & _ & B & N)]);
      exists resp, w'; (split; [exact E|]); rewrite S; split_and!; auto;
      try discriminate; congruence.
  - destruct (cut_video_rejects_text env req w) as (msg & E & N); [left; exact F|].
    eexists _, _. split; [exact E|]. split_and!; auto. discriminate.
Qed.

(** X5: the status tells the shape of the request. It is 400 exactly when
    no file was stored or the [cuts] text does not parse to a non-empty
    array; 500 exactly when the batch holds an element that is not a cut
    request; 200 exactly when the batch is non-empty and made of cut
    requests. *)
Theorem status_by_request_shape env req w resp w' :
  cut_video env req w = (Normal resp, w') ->
  (status resp = 400 <->
     req_file req = None
     \/ forall c cs, JSON_parse env (cuts_text req) <> Some (VArr (c :: cs)))
  /\ (status resp = 500 <->
        exists file cuts,
          req_file req = Some file
          /\ JSON_parse env (cuts_text req) = Some (VArr cuts)
          /\ Exists (fun c => cut_request c = false) cuts)
  /\ (status resp = 200 <->
        exists file cuts,
          req_file req = Some file
          /\ JSON_parse env (cuts_text req) = Some (VArr cuts)
          /\ cuts <> []
          /\ Forall (fun c => cut_request c = true) cuts).
Proof.
  intros E.
  assert (R : (req_file req = None
               \/ forall c cs, JSON_parse env (cuts_text req) <> Some (VArr (c :: cs)))
              \/ exists file c cs,
                   req_file req = Some file
                   /\ JSON_parse env (cuts_text req) = Some (VArr (c :: cs))).
  { destruct (req_file req) as [file|]; [|left; left; reflexivity].
    destruct (JSON_parse env (cuts_text req)) as [[| | | | |[|c cs]|]|];
      try (left; right; intros; discriminate).
    right. eauto. }
  destruct R as [R|(file & c & cs & F & J)].
  - destruct (cut_video_rejects env req w R) as (msg & E').
    rewrite E' in E. injection E as <- _. cbn [status res_json].
    split_and!; split; try discriminate; auto.
    + intros (file & cuts & F & J & X). destruct R as [R|R]; [congruence|].
      destruct cuts as [|c cs]; [inversion X|]. now destruct (R c cs).
    + intros (file & cuts & F & J & N & _). destruct R as [R|R]; [congruence|].
      destruct cuts as [|c cs]; [congruence|]. now destruct (R c cs).
  - destruct (cut_video_batch_status env req w file c cs F J)
      as (resp' & w'' & E' & H).
    rewrite E' in E. injection E as <- _.
    destruct H as [(S & T & _)|(S & X & _)]; rewrite S; split_and!; split;
      try discriminate; auto.
    + intros [H|H]; [congruence|]. now destruct (H c cs).
    + intros (f & cuts & F' & J' & X). rewrite J in J'. injection J' as <-.
      destruct (cut_request_exclusive _ T X).
    + intros _. exists file, (c :: cs). split_and!; first [assumption | discriminate].
    + intros [H|H]; [congruence|]. now destruct (H c cs).
    + intros _. exists file, (c :: cs). split_and!; auto.
    + intros (f & cuts & F' & J' & _ & T). rewrite J in J'. injection J' as <-.
      destruct (cut_request_exclusive _ T X).
Qed.

Lemma status_by_request_shape_witness :
  status (res_json 500
            [("success", VBool false);
             ("error", VStr "Cannot read properties of undefined (reading 'split')")])
  = 500
  <-> exists file cuts,
        req_file (Demo.request Demo.text_untyped) = Some file
        /\ JSON_parse (Demo.env [] None) (cuts_text (Demo.request Demo.text_untyped))
           = Some (VArr cuts)
        /\ Exists (fun c => cut_request c = false) cuts.
Proof.
  refine (proj1 (proj2 (status_by_request_shape (Demo.env [] None)
                          (Demo.request Demo.text_untyped) Demo.w0 _
                          (snd (cut_video (Demo.env [] None)
                                  (Demo.request Demo.text_untyped) Demo.w0)) _))).
  vm_compute. reflexivity.
Defined.

(** ** What the handler leaves alone *)

(** X6: the handler calls [unlinkSync] at most once, and only on the
    upload of the request; every other file that was on disk is still
    there when it has answered. *)
Theorem only_the_upload_is_unlinked env req w :
  exists resp w',
    cut_video env req w = (Normal resp, w')
    /\ (unlink_log w' = unlink_log w
        \/ exists file, req_file req = Some file
                        /\ unlink_log w' = unlink_log w ++ [file_path file])
    /\ (forall p, p ∈ disk w ->
          (forall file, req_file req = Some file -> p <> file_path file) ->
          p ∈ disk w').
Proof.
  assert (R : (req_file req = None
               \/ forall c cs, JSON_parse env (cuts_text req) <> Some (VArr (c :: cs)))
              \/ exists file c cs,
                   req_file req = Some file
                   /\ JSON_parse env (cuts_text req) = Some (VArr (c :: cs))).
  { destruct (req_file req) as [file|]; [|left; left; reflexivity].
    destruct (JSON_parse env (cuts_text req)) as [[| | | | |[|c cs]|]|];
      try (left; right; intros; discriminate).
    right. eauto. }
  destruct R as [R|(file & c & cs & F & J)].
  - destruct (cut_video_rejects env req w R) as (msg & E).
    eexists _, _. split; [exact E|]. split; [left; reflexivity|]. auto.
  - destruct (cut_video_runs env req w file c cs F J)
      as (r & w2 & resp & w' & L & E & _ & U & _ & D).
    pose proof (cut_loop_frame env (file_path file) (length (c :: cs)) (c :: cs)
                  0 [] [] (batch_start file (c :: cs) w)) as [_ D0].
    rewrite L in D0. cbn [snd] in D0.
    change (disk (batch_start file (c :: cs) w)) with (disk w) in D0.
    exists resp, w'. split; [exact E|]. split.
    + destruct U as [U|U]; [left; exact U|right; eauto].
    + intros p I N. specialize (N file F). set_solver.
Qed.

(** ** Clips *)

Lemma string_app_length (a b : string) :
  String.length (a +:+ b) = String.length a + String.length b.
Proof. induction a as [|c a IH]; simpl; [reflexivity|now rewrite IH]. Qed.

Lemma string_app_inj_r (s t u : string) : s +:+ u = t +:+ u -> s = t.
Proof.
  revert t. induction s as [|c s IH]; intros [|d t] H; simpl in H.
  - reflexivity.
  - apply (f_equal String.length) in H.
    rewrite !string_app_length in H. simpl in H. lia.
  - apply (f_equal String.length) in H.
    rewrite !string_app_length in H. simpl in H. lia.
  - injection H as -> H. f_equal. now apply IH.
Qed.

(** Distinct identifiers name distinct files. *)
Lemma clip_path_inj env a b :
  clip_path env a = clip_path env b -> uuidv4 env a = uuidv4 env b.
Proof.
  unfold clip_path, clip_name, path_join. intros H.
  apply String.app_inj in H.
  change (String "/" (uuidv4 env a +:+ ".mp4") = String "/" (uuidv4 env b +:+ ".mp4")) in H.
  injection H as H. now apply string_app_inj_r in H.
Qed.

Lemma call_outputs env inputPath u (calls : list EngineCall) :
  (forall j call, calls !! j = Some call ->
     exists s e, call = the_call env inputPath (u + j) s e) ->
  map call_output calls = map (clip_path env) (seq u (length calls)).
Proof.
  revert u. induction calls as [|c calls IH]; intros u H; [reflexivity|].
  simpl. f_equal.
  - destruct (H 0 c eq_refl) as (s & e & ->). simpl. now rewrite Nat.add_0_r.
  - apply IH. intros j call Hj. destruct (H (S j) call Hj) as (s & e & ->).
    exists s, e. f_equal. lia.
Qed.

Lemma NoDup_clip_paths env (l : list nat) :
  NoDup (map (uuidv4 env) l) -> NoDup (map (clip_path env) l).
Proof.
  induction l as [|a l IH]; simpl; intros H; [constructor|].
  apply NoDup_cons in H as [Ha Hl]. apply NoDup_cons. split; [|auto].
  intros I. apply Ha.
  apply list_elem_of_In, in_map_iff in I as (b & Eb & Ib).
  apply list_elem_of_In, in_map_iff. exists b. split; [|exact Ib].
  now apply clip_path_inj.
Qed.

Lemma NoDup_seq_prefix {A} (f : nat -> A) u n m :
  m <= n -> NoDup (map f (seq u n)) -> NoDup (map f (seq u m)).
Proof.
  intros L H. replace n with (m + (n - m)) in H by lia.
  rewrite seq_app, map_app in H. now apply NoDup_app in H as [H _].
Qed.

(** X7: whenever the batch runs, and the identifiers it may draw are
    pairwise distinct, every invocation of the transcoder reads the
    upload, uses the fixed profile, and writes under [CUTS_DIR] a file
    named after the next identifier; no two invocations write the same
    file, and there are no more invocations than cuts. *)
Theorem invocations_write_distinct_clips env req w file c cs :
  req_file req = Some file ->
  JSON_parse env (cuts_text req) = Some (VArr (c :: cs)) ->
  NoDup (map (uuidv4 env) (seq (uuid_drawn w) (length (c :: cs)))) ->
  exists calls resp w',
    cut_video env req w = (Normal resp, w')
    /\ engine_log w' = engine_log w ++ calls
    /\ length calls <= length (c :: cs)
    /\ (forall j call, calls !! j = Some call ->
          exists s e, call = the_call env (file_path file) (uuid_drawn w + j) s e)
    /\ NoDup (map call_output calls).
Proof.
  intros F J N.
  destruct (cut_video_runs env req w file c cs F J)
    as (r & w2 & resp & w' & L & E & G & _).
  destruct (cut_loop_trace _ _ _ _ _ _ _ _ _ _ L) as (calls & G2 & _ & Len & C & _).
  change (engine_log (batch_start file (c :: cs) w)) with (engine_log w) in G2.
  change (uuid_drawn (batch_start file (c :: cs) w)) with (uuid_drawn w) in C.
  exists calls, resp, w'. split_and!; auto.
  - now rewrite G, G2.
  - rewrite (call_outputs env (file_path file) (uuid_drawn w) calls C).
    apply NoDup_clip_paths. exact (NoDup_seq_prefix _ _ _ _ Len N).
Qed.

Lemma invocations_write_distinct_clips_witness :
  exists calls resp w',
    cut_video (Demo.env [1] None) (Demo.request Demo.text_three) Demo.w0
    = (Normal resp, w')
    /\ engine_log w' = [] ++ calls
    /\ length calls <= 3
    /\ (forall j call, calls !! j = Some call ->
          exists s e,
            call = the_call (Demo.env [1] None) "uploads/3f2a.mp4" (0 + j) s e)
    /\ NoDup (map call_output calls).
Proof.
  apply (invocations_write_distinct_clips (Demo.env [1] None)
           (Demo.request Demo.text_three) Demo.w0 Demo.upload
           (Demo.cut (VNum 1) (VNum 4))
           [Demo.cut (VStr "0:30") (VStr "1:00"); Demo.cut (VStr "abc") (VStr "7")]).
  - reflexivity.
  - reflexivity.
  - refine (bool_decide_unpack _ _). vm_compute. exact I.
Defined.



(** ** An aborted batch *)

(** The loop up to the first element that is not a cut request. *)
Lemma cut_loop_stops_at env inputPath total cuts k bad :
  cuts !! k = Some bad ->
  cut_request bad = false ->
  Forall (fun c => cut_request c = true) (take k cuts) ->
  forall w,
  exists err outs calls w2,
    cut_loop env inputPath total 0 cuts [] [] w = (Throw err, w2)
    /\ cut_loop env inputPath total 0 (take k cuts) [] [] w
       = (Normal (successes outs, failures outs), w2)
    /\ engine_log w2 = engine_log w ++ calls
    /\ map call_range calls = omap requested (take k cuts).
Proof.
  intros K B T w.
  destruct (cut_loop_outcomes env inputPath total (take k cuts) T 0 [] [] w)
    as (outs & calls & w2 & L & _ & _ & G & Q & _).
  rewrite !app_nil_l in L.
  destruct (not_cut_request_bounds bad B) as (err & Be & _).
  exists err, outs, calls, w2. split_and!; auto.
  rewrite <- (take_drop_middle cuts k bad K), cut_loop_app.
  unfold bind at 1. rewrite L. cbn [fst snd cut_loop].
  unfold bind. now rewrite (process_cut_throws _ _ _ _ _ _ _ _ _ Be).
Qed.

(** X9: when the batch is aborted by its element at index [k], the
    transcoder has by then been invoked for every cut before [k] that
    passes the range check; the clips it completed stay on disk, and the
    500 response does not name them. *)
Theorem aborted_batch_keeps_its_clips env req w file cuts k bad :
  req_file req = Some file ->
  JSON_parse env (cuts_text req) = Some (VArr cuts) ->
  cuts !! k = Some bad ->
  cut_request bad = false ->
  Forall (fun c => cut_request c = true) (take k cuts) ->
  exists calls resp w',
    cut_video env req w = (Normal resp, w')
    /\ status resp = 500
    /\ field "cuts" resp = VUndefined
    /\ engine_log w' = engine_log w ++ calls
    /\ map call_range calls = omap requested (take k cuts)
    /\ (forall n,
          n ∈ produced env (uuid_drawn w) (length (engine_log w)) calls ->
          clip_path env n <> file_path file ->
          clip_path env n ∈ disk w').
Proof.
  intros F J K B T. destruct cuts as [|c cs]; [discriminate K|].
  destruct (cut_loop_stops_at env (file_path file) (length (c :: cs)) (c :: cs) k bad
              K B T (batch_start file (c :: cs) w))
    as (err & outs & calls & w2 & L & Lp & G & Q).
  destruct (cut_loop_trace _ _ _ _ _ _ _ _ _ _ Lp) as (calls' & G' & _ & _ & _ & D & _).
  change (engine_log (batch_start file (c :: cs) w)) with (engine_log w) in *.
  change (uuid_drawn (batch_start file (c :: cs) w)) with (uuid_drawn w) in *.
  change (disk (batch_start file (c :: cs) w)) with (disk w) in *.
  assert (calls' = calls) as -> by (rewrite G in G'; now apply app_inv_head in G').
  destruct (cut_video_aborts_world env req w file c cs err w2 F J L)
    as (w' & E & Ge & _ & _ & D2).
  eexists calls, _, w'. split_and!; [exact E|reflexivity| | |exact Q|].
  - unfold field, res_json. cbn. destruct (non_empty (message err)); reflexivity.
  - now rewrite Ge, G.
  - intros n I Ne. apply D2. rewrite D.
    assert (clip_path env n ∈ map (clip_path env)
              (produced env (uuid_drawn w) (length (engine_log w)) calls))
      by (apply list_elem_of_In, in_map, list_elem_of_In, I).
    set_solver.
Qed.

Lemma aborted_batch_keeps_its_clips_witness :
  exists calls resp w',
    cut_video (Demo.env [] None) (Demo.request Demo.text_untyped) Demo.w0
    = (Normal resp, w')
    /\ status resp = 500
    /\ field "cuts" resp = VUndefined
    /\ engine_log w' = [] ++ calls
    /\ map call_range calls = [(0, 2)]%float
    /\ (forall n,
          n ∈ produced (Demo.env [] None) 0 0 calls ->
          clip_path (Demo.env [] None) n <> "uploads/3f2a.mp4" ->
          clip_path (Demo.env [] None) n ∈ disk w').
Proof.
  apply (aborted_batch_keeps_its_clips (Demo.env [] None)
           (Demo.request Demo.text_untyped) Demo.w0 Demo.upload
           [Demo.cut (VNum 0) (VNum 2); VObj []] 1 (VObj [])).
  - reflexivity.
  - reflexivity.
  - reflexivity.
  - reflexivity.
  - repeat constructor.
Defined.

(** X10: processing a batch [xs ++ ys] is processing [xs] and then [ys],
    from the index, the arrays and the world [xs] leaves; when [xs]
    throws, [ys] is never started. *)
Theorem batch_splits env inputPath total xs ys i results errors w :
  (forall rs es w1,
      cut_loop env inputPath total i xs results errors w = (Normal (rs, es), w1) ->
      cut_loop env inputPath total i (xs ++ ys) results errors w
      = cut_loop env inputPath total (i + length xs) ys rs es w1)
  /\ (forall err w1,
        cut_loop env inputPath total i xs results errors w = (Throw err, w1) ->
        cut_loop env inputPath total i (xs ++ ys) results errors w = (Throw err, w1)).
Proof.
  split; intros; rewrite cut_loop_app; unfold bind; now rewrite H.
Qed.

Lemma batch_splits_witness :
  cut_loop (Demo.env [] None) "uploads/3f2a.mp4" 2 0
    ([Demo.cut (VStr "00:00:20") (VStr "00:00:10")] ++ [Demo.cut (VNum 1) (VNum 4)])
    [] [] Demo.w0
  = cut_loop (Demo.env [] None) "uploads/3f2a.mp4" 2 (0 + 1)
      [Demo.cut (VNum 1) (VNum 4)] []
      [{| index := 0; error := "Invalid time range: 00:00:20 to 00:00:10" |}] Demo.w0.
Proof.
  apply (proj1 (batch_splits (Demo.env [] None) "uploads/3f2a.mp4" 2
                  [Demo.cut (VStr "00:00:20") (VStr "00:00:10")]
                  [Demo.cut (VNum 1) (VNum 4)] 0 [] [] Demo.w0)).
  reflexivity.
Defined.

(** ** The order of [errors] *)

Lemma failures_increasing (outs : list CutOutcome) (i : nat) :
  (forall k e, outs !! k = Some (Failure e) -> index e = i + k) ->
  forall a b ea eb,
    failures outs !! a = Some ea -> failures outs !! b = Some eb ->
    a < b -> index ea < index eb.
Proof.
  revert i. induction outs as [|o outs IH]; intros i H a b ea eb Ha Hb L;
    [discriminate Ha|].
  assert (H' : forall k e, outs !! k = Some (Failure e) -> index e = S i + k).
  { intros k e Hk. rewrite (H (S k) e Hk). lia. }
  destruct o as [p|e]; [exact (IH (S i) H' a b ea eb Ha Hb L)|].
  change (failures (Failure e :: outs)) with (e :: failures outs) in Ha, Hb.
  destruct b as [|b]; [lia|]. simpl in Hb.
  destruct a as [|a].
  - injection Ha as <-. rewrite (H 0 e eq_refl).
    pose proof (failures_indices outs (S i) H') as R.
    rewrite Forall_forall in R.
    assert (I : eb ∈ failures outs) by (apply list_elem_of_lookup; eauto).
    specialize (R eb I). lia.
  - simpl in Ha. apply (IH (S i) H' a b ea eb Ha Hb). lia.
Qed.

(** X11: in the response to a batch of cut requests the entries of
    [errors] come in increasing order of index, no index twice, and every
    index is that of a cut of the batch. *)
Theorem errors_are_ordered env req w file cuts :
  req_file req = Some file ->
  JSON_parse env (cuts_text req) = Some (VArr cuts) ->
  cuts <> [] ->
  Forall (fun c => cut_request c = true) cuts ->
  exists es resp w',
    cut_video env req w = (Normal resp, w')
    /\ field "errors" resp = match es with
                             | [] => VUndefined
                             | _ => VArr (map error_obj es)
                             end
    /\ Forall (fun e => index e < length cuts) es
    /\ (forall a b ea eb,
          es !! a = Some ea -> es !! b = Some eb -> a < b -> index ea < index eb).
Proof.
  intros F J N T. destruct cuts as [|c cs]; [congruence|].
  destruct (cut_loop_outcomes env (file_path file) (length (c :: cs)) (c :: cs) T
              0 [] [] (batch_start file (c :: cs) w))
    as (outs & calls & w2 & L & Len & P & _).
  rewrite !app_nil_l in L.
  destruct (cut_video_completes env req w file c cs _ _ w2 F J L) as (w' & E & _).
  assert (H : forall k e, outs !! k = Some (Failure e) -> index e = 0 + k).
  { intros k e Hk.
    pose proof (lookup_lt_Some _ _ _ Hk) as Hl. rewrite Len in Hl.
    apply lookup_lt_is_Some in Hl as [cut Hc].
    destruct (P k cut Hc) as (o & Ho & Oo). rewrite Hk in Ho. injection Ho as <-.
    exact Oo. }
  eexists (failures outs), _, w'. split_and!.
  - exact E.
  - unfold field, res_json. cbn. destruct (failures outs); reflexivity.
  - eapply Forall_impl; [apply (failures_indices outs 0 H)|].
    intros e He. cbv beta in He |- *. rewrite <- Len. lia.
  - exact (failures_increasing outs 0 H).
Qed.

Lemma errors_are_ordered_witness :
  exists es resp w',
    cut_video (Demo.env [0] None) (Demo.request Demo.text_two) Demo.w0
    = (Normal resp, w')
    /\ field "errors" resp = match es with
                             | [] => VUndefined
                             | _ => VArr (map error_obj es)
                             end
    /\ Forall (fun e => index e < 2) es
    /\ (forall a b ea eb,
          es !! a = Some ea -> es !! b = Some eb -> a < b -> index ea < index eb).
Proof.
  apply (errors_are_ordered (Demo.env [0] None) (Demo.request Demo.text_two)
           Demo.w0 Demo.upload
           [Demo.cut (VStr "00:00:05") (VStr "00:00:12");
            Demo.cut (VStr "00:00:20") (VStr "00:00:10")]).
  - reflexivity.
  - reflexivity.
  - discriminate.
  - repeat constructor.
Defined.

(** ** A request without a [cuts] field *)

(** X12: when a file was stored and the request has no [cuts] field, or an
    empty one, the handler parses ["[]"] in its place; with [JSON.parse]
    reading that text as the empty array, the request is answered 400
    "No cuts provided", and nothing but the clock is touched. *)
Theorem absent_cuts_is_400 env req w file :
  req_file req = Some file ->
  body_cuts req = None \/ body_cuts req = Some "" ->
  JSON_parse env "[]" = Some (VArr []) ->
  cut_video env req w
  = (Normal (res_json 400
               [("success", VBool false);
                ("error",
                 VStr "No cuts provided. Send an array of { start, end } objects.")]),
     tick w).
Proof.
  intros F B J.
  assert (T : cuts_text req = "[]")
    by (unfold cuts_text; destruct B as [-> | ->]; reflexivity).
  unfold cut_video, bind, read_clock, try_catch, ret. now rewrite F, T, J.
Qed.

Lemma absent_cuts_is_400_witness :
  cut_video (Demo.env [] None)
    {| req_file := Some Demo.upload; body_cuts := Some "" |} Demo.w0
  = (Normal (res_json 400
               [("success", VBool false);
                ("error",
                 VStr "No cuts provided. Send an array of { start, end } objects.")]),
     tick Demo.w0).
Proof.
  apply (absent_cuts_is_400 (Demo.env [] None)
           {| req_file := Some Demo.upload; body_cuts := Some "" |} Demo.w0 Demo.upload).
  - reflexivity.
  - right. reflexivity.
  - reflexivity.
Defined.

(** ** The error middleware and the upload filter *)

(** X13: the error middleware answers 413 exactly for a [MulterError]
    whose code is [LIMIT_FILE_SIZE], and 500 for every other error, other
    [MulterError]s included; either way the body has [success: false] and
    a non-empty [error] text, and the error is what is written to the
    console. *)
Theorem error_middleware_status (error : ExpressError) :
  (status (snd (error_middleware error)) = 413
   <-> multer_code error = Some "LIMIT_FILE_SIZE")
  /\ (status (snd (error_middleware error)) = 500
      <-> multer_code error <> Some "LIMIT_FILE_SIZE")
  /\ field "success" (snd (error_middleware error)) = VBool false
  /\ non_empty (error_text (snd (error_middleware error))) = true
  /\ fst (error_middleware error) = raised error.
Proof.
  unfold error_middleware. cbn [fst snd].
  destruct (multer_code error) as [code|].
  - destruct (String.eqb_spec code "LIMIT_FILE_SIZE") as [->|Ne].
    + split_and!; try reflexivity; split; intros H;
        first [reflexivity | discriminate H | now destruct H].
    + split_and!; try reflexivity.
      * split; [discriminate|]. intros [= ->]. congruence.
      * split; [congruence|reflexivity].
      * unfold error_text, field, res_json. cbn.
        destruct (message (raised error)); reflexivity.
  - split_and!; try reflexivity.
    + split; discriminate.
    + split; [discriminate|reflexivity].
    + unfold error_text, field, res_json. cbn.
      destruct (message (raised error)); reflexivity.
Qed.

(** X14: the filter lets through exactly the five video types; the error
    it raises for any other type is no [MulterError], so the middleware
    turns it into a 500 carrying "Invalid file type. Only video files are
    allowed.". *)
Theorem wrong_type_is_500 (mimetype : string) :
  (fileFilter mimetype = Normal true <-> mimetype ∈ allowedMimes)
  /\ (mimetype ∉ allowedMimes ->
      exists err,
        fileFilter mimetype = Throw err
        /\ snd (error_middleware {| multer_code := None; raised := err |})
           = res_json 500
               [("success", VBool false);
                ("error", VStr "Invalid file type. Only video files are allowed.")]).
Proof.
  unfold fileFilter. destruct (bool_decide_reflect (mimetype ∈ allowedMimes)) as [I|I].
  - split; [tauto|]. intros N. contradiction.
  - split; [split; [discriminate|contradiction]|].
    intros _. eexists. split; reflexivity.
Qed.

Lemma wrong_type_is_500_witness :
  exists err,
    fileFilter "image/png" = Throw err
    /\ snd (error_middleware {| multer_code := None; raised := err |})
       = res_json 500
           [("success", VBool false);
            ("error", VStr "Invalid file type. Only video files are allowed.")].
Proof.
  apply (proj2 (wrong_type_is_500 "image/png")).
  refine (bool_decide_unpack _ _). vm_compute. exact I.
Defined.
